(** * batch_resize.py: geometry, batch and composition logic

    A shallow embedding of [src/python/batch_resize.py].

    - Python [int] is [Z]; [//] is floor division, which is [Z.div].
    - Python [float] is IEEE-754 binary64, taken from the kernel's
      executable specification [SpecFloat] at precision 53 and maximal
      exponent 1024; every operation rounds to nearest, ties to even.
    - Exceptions are the [Raise] results of a small error type; the code
      catches none, so a raise ends the run.
    - Files written and directories made are recorded as a list of events
      threaded through the run.
    - The configuration is the JSON document already decoded into records:
      the keys the code reads without a default ([outputs], [profiles],
      [layouts], a profile's [tag] and [size], a layout's [patterns]) are
      there; the lookups by orientation and by image count are the ones
      that can miss.
    - Of the calls into Pillow only [Image.open] can fail here; [Image.new],
      [ImageOps.fit], [crop], [paste], [save] and [mkdir] are taken to
      succeed.  Where one of them would raise (a cell or a canvas without
      extent, a colour string Pillow does not know, a missing output
      directory) the run of the code ends at that call, before what the
      model's run records after it. *)

From Stdlib Require Import ZArith Lia List Bool Ascii String.
From Stdlib Require Import Sorting.Sorted Sorting.Permutation.
From Stdlib Require Import Floats.SpecFloat.
From Stdlib Require Import QArith Qabs.
From stdpp Require Import gmap strings list fin_maps pretty.

Open Scope Z_scope.

(** ** Exceptions and results *)

Inductive exn : Type :=
  | ZeroDivisionError
  | OverflowError
  | ValueError
  | KeyError (key : string)
  | IndexError
  | UnidentifiedImageError (path : string).

Inductive result (A : Type) : Type :=
  | Ok (a : A)
  | Raise (e : exn).

Arguments Ok {A} a.
Arguments Raise {A} e.

Definition rbind {A B : Type} (r : result A) (k : A -> result B) : result B :=
  match r with
  | Ok a => k a
  | Raise e => Raise e
  end.

Declare Scope res_scope.
Delimit Scope res_scope with res.
Notation "x <- r ;; k" := (rbind r (fun x => k))
  (at level 100, r at next level, right associativity) : res_scope.

(** ** Python floats *)

Module PyFloat.

Definition prec : Z := 53.
Definition emax : Z := 1024.

Definition float : Type := spec_float.

(** A float that came out infinite from an operation on integers is an
    [OverflowError] in Python. *)
Definition finite_or_overflow (x : float) : result float :=
  match x with
  | S754_infinity _ => Raise OverflowError
  | _ => Ok x
  end.

(** [float(n)]: the nearest binary64. *)
Definition of_int (n : Z) : result float :=
  finite_or_overflow (binary_normalize prec emax n 0 false).

(** [a / b] on two ints: the correctly rounded quotient. *)
Definition int_truediv (a b : Z) : result float :=
  if b =? 0 then Raise ZeroDivisionError
  else if a =? 0 then Ok (S754_zero (b <? 0))
  else finite_or_overflow
         (SFdiv prec emax (S754_finite (a <? 0) (Z.to_pos (Z.abs a)) 0)
                          (S754_finite (b <? 0) (Z.to_pos (Z.abs b)) 0)).

Definition is_zero (x : float) : bool :=
  match x with
  | S754_zero _ => true
  | _ => false
  end.

(** [x * y] and [x / y] on floats. *)
Definition mul (x y : float) : float := SFmul prec emax x y.

Definition div (x y : float) : result float :=
  if is_zero y then Raise ZeroDivisionError else Ok (SFdiv prec emax x y).

(** [n * y] and [n / y] with an int on the left: the int is converted first. *)
Definition int_mul (n : Z) (y : float) : result float :=
  (x <- of_int n ;; Ok (mul x y))%res.

Definition int_div (n : Z) (y : float) : result float :=
  (x <- of_int n ;; div x y)%res.

(** [x < y]; false when either side is a NaN. *)
Definition ltb (x y : float) : bool := SFltb x y.

(** [int(x)]: truncation toward zero. *)
Definition to_int (x : float) : result Z :=
  match x with
  | S754_zero _ => Ok 0
  | S754_infinity _ => Raise OverflowError
  | S754_nan => Raise ValueError
  | S754_finite s m e =>
      let a := match e with
               | Z0 => Zpos m
               | Zpos p => Z.shiftl (Zpos m) (Zpos p)
               | Zneg p => Z.shiftr (Zpos m) (Zpos p)
               end in
      Ok (if s then - a else a)
  end.

End PyFloat.

(** ** Geometry helpers *)

Definition Box : Type := (Z * Z * Z * Z)%type.

Definition center_square (w h pad : Z) : Box :=
  let side := Z.min w h - 2 * pad in
  let l := (w - side) / 2 in
  let t := (h - side) / 2 in
  (l, t, l + side, t + side).

(** The two branches of [expand_aspect], before the pad is added. *)
Definition grow (l t r b : Z) (ratio : PyFloat.float) : result Box :=
  (let bw := r - l in
   let bh := b - t in
   cr <- PyFloat.int_truediv bw bh ;;
   if PyFloat.ltb cr ratio then
     x <- PyFloat.int_mul bh ratio ;;
     nw <- PyFloat.to_int x ;;
     let d := (nw - bw) / 2 in
     Ok (l - d, t, r + d, b)
   else
     x <- PyFloat.int_div bw ratio ;;
     nh <- PyFloat.to_int x ;;
     let d := (nh - bh) / 2 in
     Ok (l, t - d, r, b + d))%res.

Definition add_pad (bx : Box) (pad : Z) : Box :=
  let '(l, t, r, b) := bx in (l - pad, t - pad, r + pad, b + pad).

Definition clamp (bx : Box) (w h : Z) : Box :=
  let '(l, t, r, b) := bx in (Z.max l 0, Z.max t 0, Z.min r w, Z.min b h).

Definition expand_aspect (l t r b : Z) (ratio : PyFloat.float) (w h pad : Z)
  : result Box :=
  (bx <- grow l t r b ratio ;;
   Ok (clamp (add_pad bx pad) w h))%res.

(** [tw/th] in [run_batch]: the ratio handed to [expand_aspect]. *)
Definition ratio_of (tw th : Z) : result PyFloat.float := PyFloat.int_truediv tw th.

(** ** Vocabulary of the geometry properties *)

Definition width (bx : Box) : Z := let '(l, _, r, _) := bx in r - l.
Definition height (bx : Box) : Z := let '(_, t, _, b) := bx in b - t.

(** [outer] contains [inner]. *)
Definition contains (outer inner : Box) : bool :=
  let '(l, t, r, b) := outer in
  let '(l0, t0, r0, b0) := inner in
  (l <=? l0) && (t <=? t0) && (r0 <=? r) && (b0 <=? b).

(** The box lies in [0,w] x [0,h]. *)
Definition within (bx : Box) (w h : Z) : bool :=
  let '(l, t, r, b) := bx in
  (0 <=? l) && (0 <=? t) && (r <=? w) && (b <=? h).

(** Positive extent on both axes. *)
Definition proper (bx : Box) : bool :=
  let '(l, t, r, b) := bx in (l <? r) && (t <? b).

(** The extents the code aims at: [int(bh*ratio)] and [int(bw/ratio)]. *)
Definition target_width (bh : Z) (ratio : PyFloat.float) : result Z :=
  (x <- PyFloat.int_mul bh ratio ;; PyFloat.to_int x)%res.

Definition target_height (bw : Z) (ratio : PyFloat.float) : result Z :=
  (x <- PyFloat.int_div bw ratio ;; PyFloat.to_int x)%res.

(** The test [cr < ratio] of [expand_aspect] on a box. *)
Definition aspect_below (bx : Box) (ratio : PyFloat.float) : result bool :=
  (cr <- PyFloat.int_truediv (width bx) (height bx) ;;
   Ok (PyFloat.ltb cr ratio))%res.

(** [nw - bw] or [nh - bh], on the axis the ratio test selects: the amount
    [expand_aspect] halves to get its [d]. *)
Definition target_gap (bx : Box) (ratio : PyFloat.float) : result Z :=
  (below <- aspect_below bx ratio ;;
   if below : bool then
     nw <- target_width (height bx) ratio ;; Ok (nw - width bx)
   else
     nh <- target_height (width bx) ratio ;; Ok (nh - height bx))%res.

(** [expand_aspect] with pad 0, on a box given as a whole. *)
Definition expand_again (bx : Box) (ratio : PyFloat.float) (w h : Z) : result Box :=
  let '(l, t, r, b) := bx in expand_aspect l t r b ratio w h 0.

(** One extent is within a pixel of the extent the code aims at, given the
    other extent. *)
Definition meets_ratio (bx : Box) (ratio : PyFloat.float) : bool :=
  match target_width (height bx) ratio with
  | Ok n => Z.abs (width bx - n) <=? 1
  | Raise _ => false
  end
  ||
  match target_height (width bx) ratio with
  | Ok n => Z.abs (height bx - n) <=? 1
  | Raise _ => false
  end.

(** The exact value of a finite float, [(-1)^s * m * 2^e], as the fraction
    [float_num / float_den] in lowest form of the power of two; the value of
    a zero, and by convention of an infinity or a NaN, is 0. *)
Definition float_num (x : PyFloat.float) : Z :=
  match x with
  | S754_finite s m e => (if s then - Zpos m else Zpos m) * 2 ^ Z.max e 0
  | _ => 0
  end.

Definition float_den (x : PyFloat.float) : Z :=
  match x with
  | S754_finite _ _ e => 2 ^ Z.max (- e) 0
  | _ => 1
  end.

Definition value (x : PyFloat.float) : Q :=
  float_num x # Z.to_pos (float_den x).

(** A float with a value: a zero or a finite one. *)
Definition has_value (x : PyFloat.float) : bool :=
  match x with
  | S754_zero _ | S754_finite _ _ _ => true
  | _ => false
  end.

Definition positive_finite (x : PyFloat.float) : bool :=
  match x with
  | S754_finite false _ _ => true
  | _ => false
  end.

(** The width is [height * ratio], and the height is [width / ratio], in
    exact arithmetic on the value of the float, up to less than two pixels:
    less than one pixel on each of the two sides that were moved. *)
Definition width_on_ratio (bx : Box) (ratio : PyFloat.float) : Prop :=
  (Qabs (inject_Z (width bx) - inject_Z (height bx) * value ratio) < 2)%Q.

Definition height_on_ratio (bx : Box) (ratio : PyFloat.float) : Prop :=
  (Qabs (inject_Z (height bx) - inject_Z (width bx) / value ratio) < 2)%Q.

(** The integer part of [m * 2^e] for [e <= 0]. *)
Definition ipart (m e : Z) : Z := m / 2 ^ (- e).

(** One unit in the last place when the location says that digits were
    dropped. *)
Definition inexact_unit (l : location) : Z :=
  match l with
  | loc_Exact => 0
  | loc_Inexact _ => 1
  end.

(** ** Names and paths

    A [Path] is a directory and a final component, as on a POSIX system:
    names are compared and matched byte by byte, case included.  [suffix]
    and [stem] follow pathlib: the suffix starts at the last dot of the
    name unless that dot is the first or the last character. *)

Record Path : Type := { parent : string; name : string }.

Definition path_join (dir leaf : string) : string := dir +:+ "/" +:+ leaf.

Definition path_str (p : Path) : string := path_join (parent p) (name p).

Fixpoint rfind (c : ascii) (s : string) : option nat :=
  match s with
  | EmptyString => None
  | String a s' =>
      match rfind c s' with
      | Some i => Some (S i)
      | None => if Ascii.eqb a c then Some O else None
      end
  end.

Fixpoint drop_chars (n : nat) (s : string) : string :=
  match n, s with
  | O, _ => s
  | S n', String _ s' => drop_chars n' s'
  | S _, EmptyString => EmptyString
  end.

Fixpoint take_chars (n : nat) (s : string) : string :=
  match n, s with
  | O, _ => EmptyString
  | S n', String a s' => String a (take_chars n' s')
  | S _, EmptyString => EmptyString
  end.

Definition suffix (nm : string) : string :=
  match rfind "." nm with
  | Some i =>
      if ((0 <? i) && (i <? String.length nm - 1))%nat then drop_chars i nm
      else EmptyString
  | None => EmptyString
  end.

Definition stem (nm : string) : string :=
  match rfind "." nm with
  | Some i =>
      if ((0 <? i) && (i <? String.length nm - 1))%nat then take_chars i nm
      else nm
  | None => nm
  end.

(** [str.lower], on the ASCII letters. *)
Definition lower_ascii (c : ascii) : ascii :=
  let n := nat_of_ascii c in
  if ((65 <=? n) && (n <=? 90))%nat then ascii_of_nat (n + 32) else c.

Fixpoint lower (s : string) : string :=
  match s with
  | EmptyString => EmptyString
  | String c s' => String (lower_ascii c) (lower s')
  end.

(** [fnmatch] of a name against [*suf]: some tail of the name is [suf]. *)
Fixpoint ends_with (suf s : string) : bool :=
  String.eqb suf s ||
  match s with
  | EmptyString => false
  | String _ s' => ends_with suf s'
  end.

Definition glob_jpg (names : list string) : list string :=
  List.filter (ends_with ".jpg") names.

(** [sorted] on names: a stable insertion sort by code point order. *)
Fixpoint insert_sorted (x : string) (l : list string) : list string :=
  match l with
  | [] => [x]
  | y :: l' => if String.leb x y then x :: l else y :: insert_sorted x l'
  end.

Definition sorted (l : list string) : list string :=
  List.fold_right insert_sorted [] l.

(** [range(n)] for an int [n]; empty when [n <= 0]. *)
Definition range (n : Z) : list Z := List.map Z.of_nat (List.seq 0 (Z.to_nat n)).

(** ** Command line, configuration and the outside world *)

Record Args : Type := {
  args_cfg : string;
  args_input_dir : string;
  args_out_dir : string;
  args_pad : Z;
  args_conf : PyFloat.float;
  args_iou_thres : PyFloat.float;
  args_min_area : Z;
  args_max_area : option Z;
  args_debug : bool
}.

(** [parse_args] on an empty command line. *)
Definition default_args : Args := {|
  args_cfg := "output_profiles.json";
  args_input_dir := "input";
  args_out_dir := "output";
  args_pad := 40;
  args_conf := S754_finite false 4503599627370496 (-52);
  args_iou_thres := S754_finite false 8106479329266893 (-54);
  args_min_area := 0;
  args_max_area := None;
  args_debug := false
|}.

(** A profile of [outputs.profiles]; [prof_size] is the ["WxH"] string
    already split and read as two ints. *)
Record Profile : Type := {
  prof_tag : string;
  prof_size : Z * Z;
  prof_pad : option Z
}.

(** One entry of [layouts]; [patterns] maps [str(n)] to its [rows]. *)
Record LayoutCfg : Type := {
  gutter : option Z;
  bg_color : option string;
  patterns : gmap string (list Z)
}.

Record OutputsCfg : Type := {
  profiles : list Profile;
  separator : option string;
  default_pad : option Z
}.

Record Config : Type := {
  outputs : OutputsCfg;
  layouts : gmap string LayoutCfg
}.

(** What the run cannot see into: which paths PIL opens and at what size,
    and the detector, absent when ultralytics is not installed. *)
Record World : Type := {
  image_size : string -> option (Z * Z);
  detector : option (string -> PyFloat.float -> PyFloat.float -> option Box)
}.

(** A child of the input directory. *)
Inductive node : Type :=
  | File (nm : string)
  | Folder (nm : string) (children : list string)
  | Special (nm : string).

(** ** Effects: directories made and files saved *)

Record Paste : Type := {
  paste_img : string;
  paste_w : Z;
  paste_h : Z;
  paste_x : Z;
  paste_y : Z
}.

Inductive picture : Type :=
  | Cropped (src : string) (drawn : option Box) (crop : Box) (size : Z * Z)
  | Overlay (src : string) (rect : Box)
  | Composite (size : Z * Z) (bg : string) (pastes : list Paste).

Inductive event : Type :=
  | Mkdir (dir : string)
  | Save (path : string) (pic : picture) (quality : option Z).

Definition io (A : Type) : Type := (list event * result A)%type.

Definition io_ret {A : Type} (a : A) : io A := ([], Ok a).

Definition io_bind {A B : Type} (m : io A) (k : A -> io B) : io B :=
  match m with
  | (evs, Ok a) => let '(evs', r) := k a in (evs ++ evs', r)
  | (evs, Raise e) => (evs, Raise e)
  end.

Definition emit (ev : event) : io unit := ([ev], Ok tt).

Definition lift {A : Type} (r : result A) : io A := ([], r).

Declare Scope io_scope.
Delimit Scope io_scope with io.
Notation "x <- m ;; k" := (io_bind m (fun x => k))
  (at level 100, m at next level, right associativity) : io_scope.
Notation "m ;;; k" := (io_bind m (fun _ => k))
  (at level 100, right associativity) : io_scope.

(** A [for] loop whose body may raise. *)
Fixpoint for_each {A : Type} (l : list A) (body : A -> io unit) : io unit :=
  match l with
  | [] => io_ret tt
  | x :: l' => (body x ;;; for_each l' body)%io
  end.

(** [Image.open]. *)
Definition image_open (fs : World) (path : string) : result (Z * Z) :=
  match image_size fs path with
  | Some wh => Ok wh
  | None => Raise (UnidentifiedImageError path)
  end.

(** ** Single image batch mode *)

(** [get_bbox_yolo] when a model is loaded, [None] otherwise. *)
Definition get_bbox (fs : World) (args : Args) (src : Path) : option Box :=
  match detector fs with
  | Some yolo => yolo (path_str src) (args_conf args) (args_iou_thres args)
  | None => None
  end.

(** [area < args.min_area or (args.max_area and area > args.max_area)]. *)
Definition area_rejected (args : Args) (area : Z) : bool :=
  (area <? args_min_area args) ||
  match args_max_area args with
  | Some m => negb (m =? 0) && (area >? m)
  | None => false
  end.

Definition resized (im : picture) (tw th : Z) : picture :=
  match im with
  | Cropped src drawn crop _ => Cropped src drawn crop (tw, th)
  | Overlay src rect => Overlay src rect
  | Composite _ bg pastes => Composite (tw, th) bg pastes
  end.

Definition resize_and_save (im : picture) (dst nm ext sep tag : string)
    (tw th quality : Z) : io unit :=
  (let im := resized im tw th in
   emit (Mkdir dst) ;;;
   let fname := nm +:+ sep +:+ tag +:+ pretty tw +:+ "x" +:+ pretty th +:+ ext in
   emit (Save (path_join dst fname) im (Some quality)))%io.

(** The body of the loop over the profiles in [run_batch]. *)
Definition batch_profile (args : Args) (cfg : Config) (src : Path)
    (w h : Z) (bbox : Box) (drawn : option Box) (prof : Profile) : io unit :=
  (let out_cfg := outputs cfg in
   let sep := default "_" (separator out_cfg) in
   let default_pad_ := default (args_pad args) (default_pad out_cfg) in
   let out_root := args_out_dir args in
   let pad := default default_pad_ (prof_pad prof) in
   let tag := prof_tag prof in
   let '(tw, th) := prof_size prof in
   ratio <- lift (ratio_of tw th) ;;
   box <- lift (let '(l, t, r, b) := bbox in expand_aspect l t r b ratio w h pad) ;;
   let crop := Cropped (path_str src) drawn box (tw, th) in
   resize_and_save crop (path_join out_root tag) (stem (name src))
     (suffix (name src)) sep tag tw th (args_pad args))%io.

(** The body of the loop over the files in [run_batch]. *)
Definition batch_file (fs : World) (args : Args) (cfg : Config) (src : Path)
  : io unit :=
  (wh <- lift (image_open fs (path_str src)) ;;
   let '(w, h) := wh in
   let bbox :=
     match get_bbox fs args src with
     | Some bx => bx
     | None => center_square w h (args_pad args)
     end in
   let '(l0, t0, r0, b0) := bbox in
   let area := (r0 - l0) * (b0 - t0) in
   let bbox :=
     if area_rejected args area then center_square w h (args_pad args)
     else bbox in
   (if args_debug args then
      emit (Save (path_join (args_out_dir args)
                    ("debug_" +:+ stem (name src) +:+ ".jpg"))
                 (Overlay (path_str src) bbox) None)
    else io_ret tt) ;;;
   let drawn := if args_debug args then Some bbox else None in
   for_each (profiles (outputs cfg))
     (batch_profile args cfg src w h bbox drawn))%io.

Definition run_batch (fs : World) (args : Args) (cfg : Config)
    (files : list Path) : io unit :=
  for_each files (batch_file fs args cfg).

(** ** Compose mode *)

Definition floordiv (a b : Z) : result Z :=
  if b =? 0 then Raise ZeroDivisionError else Ok (a / b).

Definition lookup_key {V : Type} (m : gmap string V) (k : string) : result V :=
  match m !! k with
  | Some v => Ok v
  | None => Raise (KeyError k)
  end.

Definition orient_of (cw ch : Z) : string :=
  if ch >? cw then "vertical"
  else if cw >? ch then "horizontal"
  else "square".

(** The loop over the columns of one row: the pastes made and the next
    index into [imgs]. *)
Fixpoint paste_cols (fs : World) (imgs : list Path)
    (cw_cell rh gutter_ y : Z) (cols : list Z) (idx : nat)
  : result (list Paste * nat) :=
  match cols with
  | [] => Ok ([], idx)
  | col :: cols' =>
      (src <- match imgs !! idx with
              | Some p => Ok p
              | None => Raise IndexError
              end ;;
       _ <- image_open fs (path_str src) ;;
       let x := col * (cw_cell + gutter_) in
       let p := {| paste_img := path_str src; paste_w := cw_cell;
                   paste_h := rh; paste_x := x; paste_y := y |} in
       rest <- paste_cols fs imgs cw_cell rh gutter_ y cols' (S idx) ;;
       Ok (p :: fst rest, snd rest))%res
  end.

(** The loop over [rows]; [all_rows] is the whole list, whose length the
    row height is computed from. *)
Fixpoint paste_rows (fs : World) (imgs : list Path) (cw ch gutter_ : Z)
    (all_rows rows : list Z) (y : Z) (idx : nat) : result (list Paste) :=
  match rows with
  | [] => Ok []
  | rcount :: rows' =>
      (let len_rows := Z.of_nat (length all_rows) in
       rh <- floordiv (ch - gutter_ * (len_rows - 1)) len_rows ;;
       cw_cell <- floordiv (cw - gutter_ * (rcount - 1)) rcount ;;
       row <- paste_cols fs imgs cw_cell rh gutter_ y (range rcount) idx ;;
       rest <- paste_rows fs imgs cw ch gutter_ all_rows rows'
                 (y + (rh + gutter_)) (snd row) ;;
       Ok (fst row ++ rest))%res
  end.

(** The body of the loop over the profiles in [run_compose]. *)
Definition compose_profile (fs : World) (args : Args) (cfg : Config)
    (folder : Path) (imgs : list Path) (prof : Profile) : io unit :=
  (let out_cfg := outputs cfg in
   let sep := default "_" (separator out_cfg) in
   let out_root := args_out_dir args in
   let n := length imgs in
   let tag := prof_tag prof in
   let '(cw, ch) := prof_size prof in
   let orient := orient_of cw ch in
   layout_cfg <- lift (lookup_key (layouts cfg) orient) ;;
   let gutter_ := default 0 (gutter layout_cfg) in
   let bg := default "#000000" (bg_color layout_cfg) in
   rows <- lift (lookup_key (patterns layout_cfg) (pretty n)) ;;
   let compose_dir := path_join out_root tag in
   emit (Mkdir compose_dir) ;;;
   pastes <- lift (paste_rows fs imgs cw ch gutter_ rows rows 0 0) ;;
   let out_name :=
     name folder +:+ "_" +:+ tag +:+ sep +:+ pretty cw +:+ "x" +:+ pretty ch
       +:+ ".jpg" in
   emit (Save (path_join compose_dir out_name)
              (Composite (cw, ch) bg pastes) (Some 95)))%io.

(** [sorted(folder.glob("*.jpg"))]. *)
Definition folder_images (folder : Path) (children : list string) : list Path :=
  List.map (fun nm => {| parent := path_str folder; name := nm |})
           (sorted (glob_jpg children)).

Definition run_compose (fs : World) (args : Args) (cfg : Config)
    (folder : Path) (children : list string) : io unit :=
  let imgs := folder_images folder children in
  let n := length imgs in
  if (n =? 0)%nat then io_ret tt
  else for_each (profiles (outputs cfg)) (compose_profile fs args cfg folder imgs).

(** ** Main *)

(** [item.suffix.lower() in [".jpg", ".jpeg", ".png"]]. *)
Definition is_image_name (nm : string) : bool :=
  List.existsb (String.eqb (lower (suffix nm))) [".jpg"; ".jpeg"; ".png"]%string.

Definition singles_of (dir : string) (root : list node) : list Path :=
  List.flat_map
    (fun item =>
       match item with
       | File nm =>
           if is_image_name nm then [{| parent := dir; name := nm |}] else []
       | _ => []
       end) root.

Definition folders_of (dir : string) (root : list node)
  : list (Path * list string) :=
  List.flat_map
    (fun item =>
       match item with
       | Folder nm children => [({| parent := dir; name := nm |}, children)]
       | _ => []
       end) root.

Definition compose_all (fs : World) (args : Args) (cfg : Config)
    (folders : list (Path * list string)) : io unit :=
  for_each folders (fun fc => run_compose fs args cfg (fst fc) (snd fc)).

(** [process], with the configuration already loaded and the children of
    the input directory in the order [iterdir] yields them. *)
Definition process (fs : World) (args : Args) (cfg : Config)
    (root : list node) : io unit :=
  (let input_root := args_input_dir args in
   let single := singles_of input_root root in
   let folders := folders_of input_root root in
   (match single with
    | [] => io_ret tt
    | _ :: _ => run_batch fs args cfg single
    end) ;;;
   compose_all fs args cfg folders)%io.

(** ** Vocabulary of the batch properties *)

Definition is_save (ev : event) : bool :=
  match ev with
  | Save _ _ _ => true
  | Mkdir _ => false
  end.

Definition raised {A : Type} (m : io A) : bool :=
  match snd m with
  | Raise _ => true
  | Ok _ => false
  end.

Definition is_folder (item : node) : bool :=
  match item with
  | Folder _ _ => true
  | _ => false
  end.

(** The images a pattern consumes: [rcount] per row, none for [rcount <= 0]. *)
Definition images_needed (rows : list Z) : nat :=
  List.fold_right (fun rcount acc => (Z.to_nat rcount + acc)%nat) O rows.

(** The cells of a pattern as the specification lays them out: row [k],
    counted from 0, has [rcount] cells of width [(cw - g*(rcount-1)) // rcount]
    and of the row height [rh]; its cell [col] is at
    [x = col * (cell width + g)] and [y = k * (rh + g)].  A cell is written
    [(x, y, width, height)]. *)
Definition row_cells (cw g rh : Z) (k rcount : Z) : list (Z * Z * Z * Z) :=
  let cw_cell := (cw - g * (rcount - 1)) / rcount in
  List.map (fun col => (col * (cw_cell + g), k * (rh + g), cw_cell, rh))
           (range rcount).

Fixpoint grid_cells_from (cw g rh : Z) (k : Z) (rows : list Z)
  : list (Z * Z * Z * Z) :=
  match rows with
  | [] => []
  | rcount :: rows' =>
      row_cells cw g rh k rcount ++ grid_cells_from cw g rh (k + 1) rows'
  end.

Definition grid_cells (cw ch g : Z) (rows : list Z) : list (Z * Z * Z * Z) :=
  let num_rows := Z.of_nat (length rows) in
  let rh := (ch - g * (num_rows - 1)) / num_rows in
  grid_cells_from cw g rh 0 rows.

Definition cell_of (p : Paste) : Z * Z * Z * Z :=
  (paste_x p, paste_y p, paste_w p, paste_h p).

(** ** Sample inputs *)

(** Every path opens as a 1000x800 image; no detector. *)
Definition all_readable : World := {|
  image_size := fun _ => Some (1000, 800);
  detector := None
|}.

(** The same, except that [bad] does not open. *)
Definition world_without (bad : string) : World := {|
  image_size := fun path => if String.eqb path bad then None else Some (1000, 800);
  detector := None
|}.

Definition square_profile : Profile :=
  {| prof_tag := "sq"; prof_size := (800, 800); prof_pad := Some 10 |}.

Definition wide_profile : Profile :=
  {| prof_tag := "wide"; prof_size := (900, 700); prof_pad := None |}.

(** Only the pattern for four images is defined. *)
Definition grid_layout : LayoutCfg :=
  {| gutter := Some 10; bg_color := None; patterns := {[ "4" := [2; 2] ]} |}.

Definition grid_cfg : Config := {|
  outputs := {| profiles := [square_profile]; separator := None;
                default_pad := Some 20 |};
  layouts := {[ "square" := grid_layout ]}
|}.

Definition four_jpgs : list string :=
  ["d.jpg"; "b.jpg"; "x.png"; "a.jpg"; "e.JPG"; "c.jpg"; "f.jpeg"]%string.

Definition three_jpgs : list string := ["1.jpg"; "2.jpg"; "3.jpg"]%string.

Definition in_input (nm : string) : Path := {| parent := "input"; name := nm |}.

Definition four_pastes : list Paste :=
  [ {| paste_img := "input/b/a.jpg"; paste_w := 395; paste_h := 395;
       paste_x := 0; paste_y := 0 |};
    {| paste_img := "input/b/b.jpg"; paste_w := 395; paste_h := 395;
       paste_x := 405; paste_y := 0 |};
    {| paste_img := "input/b/c.jpg"; paste_w := 395; paste_h := 395;
       paste_x := 0; paste_y := 405 |};
    {| paste_img := "input/b/d.jpg"; paste_w := 395; paste_h := 395;
       paste_x := 405; paste_y := 405 |} ].

(** ** Vocabulary of the quality property *)

(** A crop, when saved, is saved with quality [q]. *)
Definition crop_saved_with (q : Z) (ev : event) : Prop :=
  match ev with
  | Save _ (Cropped _ _ _ _) quality => quality = Some q
  | _ => True
  end.

(** Whatever is saved is a composite saved with quality [q]. *)
Definition composite_saved_with (q : Z) (ev : event) : Prop :=
  match ev with
  | Save _ (Composite _ _ _) quality => quality = Some q
  | Save _ _ _ => False
  | Mkdir _ => True
  end.

(** The file [run_batch] writes for [src] under [prof], and the file
    [run_compose] writes for [folder] under [prof]. *)
Definition artifact_path (args : Args) (cfg : Config) (src : Path)
    (prof : Profile) : string :=
  let sep := default "_" (separator (outputs cfg)) in
  let '(tw, th) := prof_size prof in
  path_join (path_join (args_out_dir args) (prof_tag prof))
    (stem (name src) +:+ sep +:+ prof_tag prof +:+ pretty tw +:+ "x"
       +:+ pretty th +:+ suffix (name src)).

Definition composite_path (args : Args) (cfg : Config) (folder : Path)
    (prof : Profile) : string :=
  let sep := default "_" (separator (outputs cfg)) in
  let '(cw, ch) := prof_size prof in
  path_join (path_join (args_out_dir args) (prof_tag prof))
    (name folder +:+ "_" +:+ prof_tag prof +:+ sep +:+ pretty cw +:+ "x"
       +:+ pretty ch +:+ ".jpg").

(** What is recorded of a saved crop: its path, its source, its size and
    its quality; and of a saved composite: its path, its size and its
    quality. *)
Definition crop_record (ev : event)
  : option (string * string * (Z * Z) * option Z) :=
  match ev with
  | Save path (Cropped src _ _ size) quality => Some (path, src, size, quality)
  | _ => None
  end.

Definition composite_record (ev : event) : option (string * (Z * Z) * option Z) :=
  match ev with
  | Save path (Composite size _ _) quality => Some (path, size, quality)
  | _ => None
  end.

(** One crop per image and per profile, image by image, each saved with
    quality [q]; one composite per profile, each saved with quality [q]. *)
Definition crops_due (args : Args) (cfg : Config) (q : Z) (files : list Path)
  : list (string * string * (Z * Z) * option Z) :=
  List.flat_map
    (fun src =>
       List.map (fun prof => (artifact_path args cfg src prof, path_str src,
                              prof_size prof, Some q))
                (profiles (outputs cfg)))
    files.

Definition composites_due (args : Args) (cfg : Config) (q : Z) (folder : Path)
    (children : list string) : list (string * (Z * Z) * option Z) :=
  match folder_images folder children with
  | [] => []
  | _ :: _ =>
      List.map (fun prof => (composite_path args cfg folder prof,
                             prof_size prof, Some q))
               (profiles (outputs cfg))
  end.

(** ** Detection: the largest box

    [get_bbox_yolo] after the model call: [boxes] is the [N x 4] array
    [res.boxes.xyxy] of float32 values. *)

Module Detect.

Definition prec32 : Z := 24.
Definition emax32 : Z := 128.

Definition Row : Type :=
  (PyFloat.float * PyFloat.float * PyFloat.float * PyFloat.float)%type.

(** [(x2 - x1) * (y2 - y1)], each operation rounded to float32. *)
Definition area (row : Row) : PyFloat.float :=
  let '(x1, y1, x2, y2) := row in
  SFmul prec32 emax32 (SFsub prec32 emax32 x2 x1) (SFsub prec32 emax32 y2 y1).

Definition is_nan (x : PyFloat.float) : bool :=
  match x with
  | S754_nan => true
  | _ => false
  end.

(** The scan of numpy's [argmax] from position [i] on: the value [mp] at
    [best] is replaced by the first later value that is not [<= mp]; a NaN
    ends the scan. *)
Fixpoint argmax_from (mp : PyFloat.float) (best i : nat)
    (xs : list PyFloat.float) : nat :=
  match xs with
  | [] => best
  | x :: xs' =>
      if SFleb x mp then argmax_from mp best (S i) xs'
      else if is_nan x then i
      else argmax_from x i (S i) xs'
  end.

(** [a.argmax()]: [ValueError] on an empty array. *)
Definition argmax (xs : list PyFloat.float) : result nat :=
  match xs with
  | [] => Raise ValueError
  | x :: xs' => Ok (if is_nan x then O else argmax_from x 0 1 xs')
  end.

(** [tuple(map(int, row))]. *)
Definition int_row (row : Row) : result Box :=
  (let '(x1, y1, x2, y2) := row in
   l <- PyFloat.to_int x1 ;;
   t <- PyFloat.to_int y1 ;;
   r <- PyFloat.to_int x2 ;;
   b <- PyFloat.to_int y2 ;;
   Ok (l, t, r, b))%res.

Definition get_bbox_yolo (boxes : list Row) : result (option Box) :=
  match boxes with
  | [] => Ok None
  | _ :: _ =>
      (let areas := List.map area boxes in
       idx <- argmax areas ;;
       row <- match boxes !! idx with
              | Some row => Ok row
              | None => Raise IndexError
              end ;;
       box <- int_row row ;;
       Ok (Some box))%res
  end.

(** A key that orders the floats that are not NaN as [SFcompare] does:
    sign class first, then exponent, then mantissa. *)
Definition fkey (x : PyFloat.float) : Z * Z * Z :=
  match x with
  | S754_zero _ => (0, 0, 0)
  | S754_infinity s => (if s then -2 else 2, 0, 0)
  | S754_nan => (3, 0, 0)
  | S754_finite s m e => if s then (-1, - e, - Zpos m) else (1, e, Zpos m)
  end.

Definition klt (a b : Z * Z * Z) : Prop :=
  let '(a1, a2, a3) := a in
  let '(b1, b2, b3) := b in
  a1 < b1 \/ (a1 = b1 /\ (a2 < b2 \/ (a2 = b2 /\ a3 < b3))).

Definition kle (a b : Z * Z * Z) : Prop := klt a b \/ a = b.

(** Sample detections: 10x10, 30x20 and 20x30 boxes. *)
Definition f32 (n : Z) : PyFloat.float := binary_normalize prec32 emax32 n 0 false.

Definition three_rows : list Row :=
  [ (f32 0, f32 0, f32 10, f32 10);
    (f32 5, f32 5, f32 35, f32 25);
    (f32 50, f32 50, f32 70, f32 80) ].

End Detect.

(** ** Vocabulary of the layout and dispatch properties *)

(** The paste lies on the canvas. *)
Definition on_canvas (cw ch : Z) (p : Paste) : Prop :=
  0 <= paste_x p /\ 0 <= paste_y p
  /\ 0 <= paste_w p /\ 0 <= paste_h p
  /\ paste_x p + paste_w p <= cw /\ paste_y p + paste_h p <= ch.

(** [p] ends before [q] starts: above it, or left of it in the same row. *)
Definition before_cell (p q : Paste) : Prop :=
  paste_y p + paste_h p <= paste_y q
  \/ (paste_y p = paste_y q /\ paste_x p + paste_w p <= paste_x q).

(** The two rectangles share no pixel. *)
Definition apart (p q : Paste) : Prop :=
  paste_x p + paste_w p <= paste_x q \/ paste_x q + paste_w q <= paste_x p
  \/ paste_y p + paste_h p <= paste_y q \/ paste_y q + paste_h q <= paste_y p.

(** A direct child that [process] hands to [run_batch]. *)
Definition is_single (item : node) : bool :=
  match item with
  | File nm => is_image_name nm
  | _ => false
  end.

Definition is_crop (ev : event) : bool :=
  match ev with
  | Save _ (Cropped _ _ _ _) _ => true
  | _ => false
  end.

Definition is_overlay (ev : event) : bool :=
  match ev with
  | Save _ (Overlay _ _) _ => true
  | _ => false
  end.

(** A saved crop was cut inside the image it was cut from. *)
Definition crop_inside (fs : World) (ev : event) : Prop :=
  match ev with
  | Save _ (Cropped src _ box _) _ =>
      match image_size fs src with
      | Some (w, h) => within box w h = true
      | None => False
      end
  | _ => True
  end.

(** [args] with another [--max-area]. *)
Definition with_max_area (args : Args) (m : option Z) : Args := {|
  args_cfg := args_cfg args;
  args_input_dir := args_input_dir args;
  args_out_dir := args_out_dir args;
  args_pad := args_pad args;
  args_conf := args_conf args;
  args_iou_thres := args_iou_thres args;
  args_min_area := args_min_area args;
  args_max_area := m;
  args_debug := args_debug args
|}.

(** Six images, and a layout with a pattern for six that uses five. *)
Definition six_jpgs : list string :=
  ["f.jpg"; "e.jpg"; "d.jpg"; "c.jpg"; "b.jpg"; "a.jpg"]%string.

Definition loose_layout : LayoutCfg :=
  {| gutter := Some 10; bg_color := Some "#ffffff"%string;
     patterns := {[ "6" := [2; 3] ]} |}.

Definition loose_cfg : Config := {|
  outputs := {| profiles := [wide_profile; square_profile]; separator := None;
                default_pad := None |};
  layouts := {[ "horizontal" := loose_layout ]}
|}.

(** [--pad 400]: half the height of the sample images. *)
Definition half_pad_args : Args := {|
  args_cfg := "output_profiles.json";
  args_input_dir := "input";
  args_out_dir := "output";
  args_pad := 400;
  args_conf := S754_finite false 4503599627370496 (-52);
  args_iou_thres := S754_finite false 8106479329266893 (-54);
  args_min_area := 0;
  args_max_area := None;
  args_debug := false
|}.

(** A pattern for four images with a row of no column. *)
Definition broken_layout : LayoutCfg :=
  {| gutter := None; bg_color := None; patterns := {[ "4" := [2; 0; 2] ]} |}.

Definition broken_cfg : Config := {|
  outputs := {| profiles := [square_profile]; separator := None;
                default_pad := None |};
  layouts := {[ "square" := broken_layout ]}
|}.

(** ** Geometry: proofs *)

(** Linear arithmetic with floor divisions by constants. *)
Ltac div_lia := Z.to_euclidean_division_equations; lia.

Section Geometry.

Local Open Scope res_scope.

Lemma rbind_ok {A B : Type} (r : result A) (k : A -> result B) (y : B) :
  rbind r k = Ok y -> exists a, r = Ok a /\ k a = Ok y.
Proof. destruct r as [a|e]; simpl; [eauto | discriminate]. Qed.

Lemma within_spec l t r b w h :
  within (l, t, r, b) w h = true <-> 0 <= l /\ 0 <= t /\ r <= w /\ b <= h.
Proof. unfold within. rewrite !andb_true_iff, !Z.leb_le. tauto. Qed.

Lemma contains_spec l t r b l0 t0 r0 b0 :
  contains (l, t, r, b) (l0, t0, r0, b0) = true
  <-> l <= l0 /\ t <= t0 /\ r0 <= r /\ b0 <= b.
Proof. unfold contains. rewrite !andb_true_iff, !Z.leb_le. tauto. Qed.

Lemma proper_spec l t r b : proper (l, t, r, b) = true <-> l < r /\ t < b.
Proof. unfold proper. rewrite andb_true_iff, !Z.ltb_lt. tauto. Qed.

Lemma clamp_within_id bx w h : within bx w h = true -> clamp bx w h = bx.
Proof.
  destruct bx as [[[l t] r] b]. rewrite within_spec. intros (Hl & Ht & Hr & Hb).
  unfold clamp. rewrite !Z.max_l, !Z.min_l by lia. reflexivity.
Qed.

Lemma add_pad_0 bx : add_pad bx 0 = bx.
Proof. destruct bx as [[[l t] r] b]. unfold add_pad. rewrite !Z.sub_0_r, !Z.add_0_r. reflexivity. Qed.

Lemma clamp_unpadded e w h : within e w h = true -> clamp (add_pad e 0) w h = e.
Proof. intros Hin. rewrite add_pad_0. apply clamp_within_id, Hin. Qed.

(** What [grow] returns, branch by branch. *)
Lemma grow_cases l t r b ratio e :
  grow l t r b ratio = Ok e ->
  (aspect_below (l, t, r, b) ratio = Ok true /\
   exists nw, target_width (b - t) ratio = Ok nw /\
     e = (l - (nw - (r - l)) / 2, t, r + (nw - (r - l)) / 2, b))
  \/
  (aspect_below (l, t, r, b) ratio = Ok false /\
   exists nh, target_height (r - l) ratio = Ok nh /\
     e = (l, t - (nh - (b - t)) / 2, r, b + (nh - (b - t)) / 2)).
Proof.
  unfold grow, aspect_below, target_width, target_height, width, height.
  intros H. apply rbind_ok in H as (cr & Hcr & H). rewrite Hcr. simpl.
  destruct (PyFloat.ltb cr ratio).
  - left. split; [reflexivity|].
    apply rbind_ok in H as (x & Hx & H). apply rbind_ok in H as (nw & Hnw & H).
    exists nw. rewrite Hx. simpl. split; [exact Hnw | congruence].
  - right. split; [reflexivity|].
    apply rbind_ok in H as (x & Hx & H). apply rbind_ok in H as (nh & Hnh & H).
    exists nh. rewrite Hx. simpl. split; [exact Hnh | congruence].
Qed.

End Geometry.

(** ** Rounding: what [int(bh*ratio)] and [int(bw/ratio)] are

    [SFmul] and [SFdiv] shift the exact mantissa right and round it to
    nearest; as long as the exponent stays [<= 0] a shift only drops
    fractional bits, so [int()] of the result is the integer part of the
    exact value, or one more when the rounding carried into the integers. *)

Section Rounding.

Lemma shr_1_m mrs : 0 <= shr_m mrs -> shr_m (shr_1 mrs) = shr_m mrs / 2.
Proof.
  destruct mrs as [m r s]. cbn [shr_m]. intros Hm.
  destruct m as [|p|p]; [reflexivity| |lia].
  destruct p as [p|p|]; cbn [shr_1 shr_m].
  - rewrite Pos2Z.inj_xI. div_lia.
  - rewrite Pos2Z.inj_xO. div_lia.
  - reflexivity.
Qed.

Lemma shr_iter_m p : forall mrs,
  0 <= shr_m mrs ->
  shr_m (SpecFloat.iter_pos shr_1 p mrs) = shr_m mrs / 2 ^ Zpos p.
Proof.
  assert (Hpos : forall q, 0 < 2 ^ Zpos q) by (intros q; apply Z.pow_pos_nonneg; lia).
  induction p as [p IH|p IH|]; intros mrs Hm; cbn [SpecFloat.iter_pos].
  - assert (H1 : 0 <= shr_m (shr_1 mrs)).
    { rewrite shr_1_m by exact Hm. apply Z.div_pos; lia. }
    assert (H2 : 0 <= shr_m (SpecFloat.iter_pos shr_1 p (shr_1 mrs))).
    { rewrite IH by exact H1. apply Z.div_pos; [exact H1 | apply Hpos]. }
    rewrite IH by exact H2. rewrite IH by exact H1. rewrite shr_1_m by exact Hm.
    rewrite !Z.div_div by (try apply Hpos; try (pose proof (Hpos p)); lia).
    f_equal. change (Z.pos p~1) with (2 * Z.pos p + 1).
    replace (2 * Zpos p + 1) with (1 + Zpos p + Zpos p) by lia.
    rewrite !Z.pow_add_r by lia. rewrite Z.pow_1_r. ring.
  - assert (H2 : 0 <= shr_m (SpecFloat.iter_pos shr_1 p mrs)).
    { rewrite IH by exact Hm. apply Z.div_pos; [exact Hm | apply Hpos]. }
    rewrite IH by exact H2. rewrite IH by exact Hm.
    rewrite !Z.div_div by (try apply Hpos; try (pose proof (Hpos p)); lia).
    f_equal. change (Z.pos p~0) with (2 * Z.pos p).
    replace (2 * Zpos p) with (Zpos p + Zpos p) by lia.
    rewrite !Z.pow_add_r by lia. ring.
  - rewrite shr_1_m by exact Hm. reflexivity.
Qed.

Lemma shr_record_of_loc_m m l : shr_m (shr_record_of_loc m l) = m.
Proof. destruct l as [|[| |]]; reflexivity. Qed.

(** A right shift that ends at an exponent [<= 0] keeps the integer part. *)
Lemma shr_trunc mrs e k mrs' e' :
  shr mrs e k = (mrs', e') ->
  0 <= shr_m mrs ->
  (k <= 0 /\ mrs' = mrs /\ e' = e)
  \/ (0 < k /\ shr_m mrs' = shr_m mrs / 2 ^ k /\ e' = e + k).
Proof.
  unfold shr. intros H Hm. destruct k as [|p|p].
  - left. injection H as <- <-. repeat split; lia.
  - right. injection H as <- <-. split; [lia|]. split; [|reflexivity].
    apply shr_iter_m, Hm.
  - left. injection H as <- <-. repeat split; lia.
Qed.

Lemma round_nearest_even_bounds m l :
  m <= round_nearest_even m l <= m + 1.
Proof.
  unfold round_nearest_even. destruct l as [|[| |]]; try lia.
  destruct (Z.even m); lia.
Qed.

Lemma digits2_pos_size p : digits2_pos p = Pos.size p.
Proof. induction p; simpl; congruence. Qed.

Lemma Zdigits2_bounds m :
  0 < m -> 2 ^ (Zdigits2 m - 1) <= m < 2 ^ Zdigits2 m.
Proof.
  destruct m as [|p|p]; try lia. intros _. cbn [Zdigits2].
  rewrite digits2_pos_size.
  pose proof (Pos.size_gt p) as Hgt. pose proof (Pos.size_le p) as Hle.
  apply Pos2Z.pos_lt_pos in Hgt. apply Pos2Z.pos_le_pos in Hle.
  rewrite Pos2Z.inj_pow in Hgt, Hle.
  change (Z.pos 2) with 2 in *. change (Z.pos p~0) with (2 * Z.pos p) in Hle.
  split; [|exact Hgt].
  replace (Zpos (Pos.size p)) with (1 + (Zpos (Pos.size p) - 1)) in Hle by lia.
  rewrite Z.pow_add_r, Z.pow_1_r in Hle by lia. lia.
Qed.

Lemma Zdigits2_le m d : 0 <= m < 2 ^ d -> 0 <= d -> Zdigits2 m <= d.
Proof.
  intros [H0 Hm] Hd. destruct (Z.eq_dec m 0) as [->|Hne]; [simpl; lia|].
  destruct (Zdigits2_bounds m ltac:(lia)) as [Hlo _].
  destruct (Z_le_gt_dec (Zdigits2 m) d) as [|Hgt]; [assumption|exfalso].
  assert (2 ^ d <= 2 ^ (Zdigits2 m - 1)) by (apply Z.pow_le_mono_r; lia).
  lia.
Qed.


Lemma ipart_shift m e k :
  0 <= k -> e + k <= 0 -> ipart (m / 2 ^ k) (e + k) = ipart m e.
Proof.
  intros Hk He. unfold ipart.
  rewrite Z.div_div by (try apply Z.pow_nonzero; try apply Z.pow_pos_nonneg; lia).
  rewrite <- Z.pow_add_r by lia. f_equal. f_equal. lia.
Qed.

Lemma ipart_succ m e : e <= 0 -> ipart (m + 1) e <= ipart m e + 1.
Proof.
  intros He. unfold ipart.
  assert (0 < 2 ^ (- e)) by (apply Z.pow_pos_nonneg; lia).
  rewrite <- Z.div_add by lia.
  apply Z.div_le_mono; lia.
Qed.

Lemma ipart_mono m m' e : e <= 0 -> m <= m' -> ipart m e <= ipart m' e.
Proof.
  intros He Hm. unfold ipart. apply Z.div_le_mono; [|exact Hm].
  apply Z.pow_pos_nonneg; lia.
Qed.

Lemma fexp_le_0 m e :
  0 <= m < 2 ^ (53 - e) -> e <= 53 ->
  fexp PyFloat.prec PyFloat.emax (Zdigits2 m + e) <= 0.
Proof.
  intros Hm He. unfold fexp, emin, PyFloat.prec, PyFloat.emax.
  pose proof (Zdigits2_le m (53 - e) Hm ltac:(lia)). lia.
Qed.

Lemma to_int_finite m e :
  e <= 0 -> PyFloat.to_int (S754_finite false m e) = Ok (ipart (Zpos m) e).
Proof.
  intros He. unfold PyFloat.to_int, ipart. destruct e as [|p|p]; try lia.
  - rewrite Z.div_1_r. reflexivity.
  - rewrite Z.shiftr_div_pow2 by lia. reflexivity.
Qed.

(** One shift of [binary_round_aux]: the exponent stays [<= 0], the integer
    part is kept, and the magnitude bound is kept. *)
Lemma shr_fexp_trunc m e l mrs' e' b :
  shr_fexp PyFloat.prec PyFloat.emax m e l = (mrs', e') ->
  0 <= m < 2 ^ (b - e) -> e <= 0 -> 0 <= b <= 53 ->
  e <= e' <= 0
  /\ 0 <= shr_m mrs' < 2 ^ (b - e')
  /\ ipart (shr_m mrs') e' = ipart m e
  /\ shr_m mrs' * 2 ^ (e' - e) <= m.
Proof.
  unfold shr_fexp. intros H Hm He Hb.
  assert (Hf : fexp PyFloat.prec PyFloat.emax (Zdigits2 m + e) <= 0).
  { apply fexp_le_0; [|lia]. split; [lia|].
    eapply Z.lt_le_trans; [apply Hm|]. apply Z.pow_le_mono_r; lia. }
  apply shr_trunc in H; rewrite shr_record_of_loc_m in *; [|lia].
  destruct H as [(Hk & -> & ->)|(Hk & Hs & ->)].
  - rewrite shr_record_of_loc_m, Z.sub_diag, Z.pow_0_r. repeat split; lia.
  - set (k := fexp PyFloat.prec PyFloat.emax (Zdigits2 m + e) - e) in *.
    assert (Hp : 0 < 2 ^ k) by (apply Z.pow_pos_nonneg; lia).
    rewrite Hs. split; [lia|]. split; [|split].
    + split; [apply Z.div_pos; lia|].
      apply Z.div_lt_upper_bound; [exact Hp|].
      rewrite <- Z.pow_add_r by lia.
      replace (k + (b - (e + k))) with (b - e) by lia. lia.
    + apply ipart_shift; lia.
    + replace (e + k - e) with k by lia.
      rewrite Z.mul_comm. apply Z.mul_div_le. exact Hp.
Qed.

(** [binary_round_aux] on a non-negative value below [2^52] whose exponent
    is [<= 0]: the result is a float whose [int()] is the integer part of
    the value, or one more. *)
Lemma binary_round_aux_trunc mx ex lx :
  0 <= mx < 2 ^ (52 - ex) -> ex <= 0 ->
  exists n,
    PyFloat.to_int (binary_round_aux PyFloat.prec PyFloat.emax false mx ex lx) = Ok n
    /\ ipart mx ex <= n <= ipart mx ex + 1.
Proof.
  intros Hm He. unfold binary_round_aux.
  destruct (shr_fexp PyFloat.prec PyFloat.emax mx ex lx) as [mrs1 e1] eqn:H1.
  apply (shr_fexp_trunc _ _ _ _ _ 52) in H1; [|lia..].
  destruct H1 as (He1 & Hs1 & Hi1 & _).
  pose proof (round_nearest_even_bounds (shr_m mrs1) (loc_of_shr_record mrs1)) as Hr.
  set (m1 := round_nearest_even (shr_m mrs1) (loc_of_shr_record mrs1)) in *.
  destruct (shr_fexp PyFloat.prec PyFloat.emax m1 e1 loc_Exact) as [mrs2 e2] eqn:H2.
  apply (shr_fexp_trunc _ _ _ _ _ 53) in H2; [|try lia..].
  2:{ split; [lia|].
      replace (53 - e1) with (1 + (52 - e1)) by lia.
      rewrite Z.pow_add_r by lia. lia. }
  destruct H2 as (He2 & Hs2 & Hi2 & _).
  assert (Hn : ipart mx ex <= ipart (shr_m mrs2) e2 <= ipart mx ex + 1).
  { rewrite Hi2, <- Hi1. split.
    - apply ipart_mono; lia.
    - etransitivity; [apply (ipart_mono _ (shr_m mrs1 + 1)); lia|].
      apply ipart_succ; lia. }
  destruct (shr_m mrs2) as [|m|m] eqn:Hm2; [| |lia].
  - exists 0. split; [reflexivity|]. unfold ipart in Hn at 2 3.
    rewrite Z.div_0_l in Hn by (apply Z.pow_nonzero; lia). exact Hn.
  - replace (e2 <=? PyFloat.emax - PyFloat.prec) with true
      by (symmetry; apply Z.leb_le; unfold PyFloat.emax, PyFloat.prec; lia).
    exists (ipart (Zpos m) e2). split; [apply to_int_finite; lia | exact Hn].
Qed.


Lemma Zdigits2_unique m d : 2 ^ (d - 1) <= m < 2 ^ d -> 0 < d -> Zdigits2 m = d.
Proof.
  intros [Hlo Hhi] Hd.
  assert (Hm : 0 < m) by (pose proof (Z.pow_pos_nonneg 2 (d - 1)); lia).
  destruct (Zdigits2_bounds m Hm) as [Hlo' Hhi'].
  assert (Hd' : 0 < Zdigits2 m) by (destruct m; simpl; lia).
  destruct (Z_lt_le_dec (Zdigits2 m) d) as [Hlt|Hge].
  - assert (2 ^ Zdigits2 m <= 2 ^ (d - 1)) by (apply Z.pow_le_mono_r; lia). lia.
  - destruct (Z_lt_le_dec d (Zdigits2 m)) as [Hlt|Hge']; [|lia].
    assert (2 ^ d <= 2 ^ (Zdigits2 m - 1)) by (apply Z.pow_le_mono_r; lia). lia.
Qed.

(** A 53-bit mantissa is left as it is. *)
Lemma binary_round_aux_canonical s m e :
  2 ^ 52 <= Zpos m < 2 ^ 53 -> -1074 <= e <= 971 ->
  binary_round_aux PyFloat.prec PyFloat.emax s (Zpos m) e loc_Exact = S754_finite s m e.
Proof.
  intros Hm He.
  assert (Hd : Zdigits2 (Zpos m) = 53) by (apply Zdigits2_unique; [exact Hm | lia]).
  unfold binary_round_aux, shr_fexp. cbn [shr_record_of_loc].
  rewrite Hd. unfold fexp, emin, PyFloat.prec, PyFloat.emax.
  replace (Z.max (53 + e - 53) (3 - 1024 - 53) - e) with 0 by lia.
  cbn [shr loc_of_shr_record shr_m shr_r shr_s round_nearest_even shr_record_of_loc].
  rewrite Hd.
  replace (Z.max (53 + e - 53) (3 - 1024 - 53) - e) with 0 by lia.
  cbn [shr shr_m].
  replace (e <=? 1024 - 53) with true by (symmetry; apply Z.leb_le; lia).
  reflexivity.
Qed.

(** A positive below [2^53] is brought to a 53-bit mantissa and left there. *)
Lemma binary_round_exact s p :
  Zpos p < 2 ^ 53 ->
  exists m e,
    binary_round PyFloat.prec PyFloat.emax s p 0 = S754_finite s m e
    /\ -52 <= e <= 0
    /\ Zpos m = Zpos p * 2 ^ (- e)
    /\ 2 ^ 52 <= Zpos m < 2 ^ 53.
Proof.
  intros Hn.
  destruct (Zdigits2_bounds (Zpos p) ltac:(lia)) as [Hlo Hhi].
  assert (Hd : 1 <= Zdigits2 (Zpos p) <= 53).
  { split; [simpl; lia|]. apply Zdigits2_le; lia. }
  unfold binary_round.
  change (Z.pos (digits2_pos p)) with (Zdigits2 (Zpos p)).
  set (d := Zdigits2 (Zpos p)) in *.
  assert (Hf : fexp PyFloat.prec PyFloat.emax (d + 0) = d - 53).
  { unfold fexp, emin, PyFloat.prec, PyFloat.emax. lia. }
  rewrite Hf. unfold shl_align. rewrite Z.sub_0_r.
  destruct (d - 53) as [|k|k] eqn:Hk; try lia.
  - assert (Hm : 2 ^ 52 <= Zpos p < 2 ^ 53).
    { replace d with 53 in * by lia. exact (conj Hlo Hhi). }
    exists p, 0. rewrite (binary_round_aux_canonical s p 0 Hm) by lia.
    split; [reflexivity|]. split; [lia|]. split; [|exact Hm].
    rewrite Z.pow_0_r. lia.
  - pose proof (shift_pos_correct k p) as Hs. unfold shift_pos in Hs.
    change (Z.pow_pos 2 k) with (2 ^ Zpos k) in Hs.
    assert (Hm : 2 ^ 52 <= Zpos (Pos.iter xO p k) < 2 ^ 53).
    { rewrite Hs.
      replace 52 with (Zpos k + (d - 1)) by lia.
      replace 53 with (Zpos k + d) by lia.
      rewrite !Z.pow_add_r by lia.
      assert (0 < 2 ^ Zpos k) by (apply Z.pow_pos_nonneg; lia). nia. }
    exists (Pos.iter xO p k), (Zneg k).
    rewrite (binary_round_aux_canonical s _ (Zneg k) Hm) by lia.
    split; [reflexivity|]. split; [lia|]. split; [|exact Hm].
    rewrite Hs. change (- Zneg k) with (Zpos k). ring.
Qed.

(** [float(n)] is exact for [0 < |n| < 2^53]: a 53-bit mantissa [|n| * 2^k]
    with the sign of [n]. *)
Lemma of_int_exact n :
  n <> 0 -> Z.abs n < 2 ^ 53 ->
  exists m e,
    PyFloat.of_int n = Ok (S754_finite (n <? 0) m e)
    /\ -52 <= e <= 0
    /\ Zpos m = Z.abs n * 2 ^ (- e)
    /\ 2 ^ 52 <= Zpos m < 2 ^ 53.
Proof.
  intros Hne Hn. unfold PyFloat.of_int, binary_normalize.
  destruct n as [|p|p]; [congruence| |].
  - destruct (binary_round_exact false p Hn) as (m & e & -> & H). exists m, e.
    split; [reflexivity | exact H].
  - destruct (binary_round_exact true p Hn) as (m & e & -> & H). exists m, e.
    split; [reflexivity | exact H].
Qed.

Lemma of_int_0 : PyFloat.of_int 0 = Ok (S754_zero false).
Proof. reflexivity. Qed.

Lemma loc_of_shr_record_of_loc m l : loc_of_shr_record (shr_record_of_loc m l) = l.
Proof. destruct l as [|[| |]]; reflexivity. Qed.


Lemma round_nearest_even_unit m l :
  round_nearest_even m l <= m + inexact_unit l.
Proof.
  unfold round_nearest_even, inexact_unit. destruct l as [|[| |]]; try lia.
  destruct (Z.even m); lia.
Qed.

(** The rounding error of [binary_round_aux] from above, relative to the
    value: [int()] of the result, scaled back, exceeds the mantissa by at
    most [2^-52] of it, plus one unit when the input was inexact. *)
Lemma binary_round_aux_above mx ex lx n :
  0 <= mx < 2 ^ (52 - ex) -> ex <= 0 ->
  PyFloat.to_int (binary_round_aux PyFloat.prec PyFloat.emax false mx ex lx) = Ok n ->
  n * 2 ^ (- ex) * 2 ^ 52 <= mx * (2 ^ 52 + 1) + inexact_unit lx * 2 ^ 52.
Proof.
  intros Hm He. unfold binary_round_aux.
  destruct (shr_fexp PyFloat.prec PyFloat.emax mx ex lx) as [mrs1 e1] eqn:H1.
  pose proof H1 as H1'.
  apply (shr_fexp_trunc _ _ _ _ _ 52) in H1'; [|lia..].
  destruct H1' as (He1 & Hs1 & Hi1 & _).
  pose proof (round_nearest_even_bounds (shr_m mrs1) (loc_of_shr_record mrs1)) as Hr.
  pose proof (round_nearest_even_unit (shr_m mrs1) (loc_of_shr_record mrs1)) as Hu.
  set (m1 := round_nearest_even (shr_m mrs1) (loc_of_shr_record mrs1)) in *.
  destruct (shr_fexp PyFloat.prec PyFloat.emax m1 e1 loc_Exact) as [mrs2 e2] eqn:H2.
  apply (shr_fexp_trunc _ _ _ _ _ 53) in H2; [|try lia..].
  2:{ split; [lia|].
      replace (53 - e1) with (1 + (52 - e1)) by lia.
      rewrite Z.pow_add_r by lia. lia. }
  destruct H2 as (He2 & Hs2 & Hi2 & _).
  intros Hn.
  assert (Hn' : n = ipart m1 e1).
  { rewrite <- Hi2. destruct (shr_m mrs2) as [|m|m] eqn:Hm2; [| |lia].
    - cbn in Hn. injection Hn as <-. unfold ipart.
      rewrite Z.div_0_l by (apply Z.pow_nonzero; lia). reflexivity.
    - replace (e2 <=? PyFloat.emax - PyFloat.prec) with true in Hn
        by (symmetry; apply Z.leb_le; unfold PyFloat.emax, PyFloat.prec; lia).
      rewrite to_int_finite in Hn by lia. congruence. }
  clear Hn Hi2 Hs2 He2 mrs2 e2.
  assert (Hp52 : 0 < 2 ^ 52) by (apply Z.pow_pos_nonneg; lia).
  assert (Hpe1 : 0 < 2 ^ (- e1)) by (apply Z.pow_pos_nonneg; lia).
  assert (Hnm : n * 2 ^ (- e1) <= m1).
  { subst n. unfold ipart. rewrite Z.mul_comm. apply Z.mul_div_le. exact Hpe1. }
  assert (Hn0 : 0 <= n).
  { subst n. unfold ipart. apply Z.div_pos; lia. }
  unfold shr_fexp in H1. apply shr_trunc in H1; rewrite shr_record_of_loc_m in *; [|lia].
  destruct H1 as [(Hk & -> & ->)|(Hk & Hs & ->)].
  - rewrite shr_record_of_loc_m, loc_of_shr_record_of_loc in *.
    assert (0 <= inexact_unit lx) by (destruct lx; simpl; lia). nia.
  - set (d := Zdigits2 mx) in *.
    set (k := fexp PyFloat.prec PyFloat.emax (d + ex) - ex) in *.
    assert (Hpk : 0 < 2 ^ k) by (apply Z.pow_pos_nonneg; lia).
    assert (Hu0 : 0 <= inexact_unit lx) by (destruct lx; simpl; lia).
    assert (Hsplit : 2 ^ (- ex) = 2 ^ (- (ex + k)) * 2 ^ k).
    { rewrite <- Z.pow_add_r by lia. f_equal. lia. }
    assert (Hsk : shr_m mrs1 * 2 ^ k <= mx).
    { rewrite Hs, Z.mul_comm. apply Z.mul_div_le. exact Hpk. }
    assert (Hk' : k = d - 53 \/ (k = -1074 - ex /\ d + ex - 53 < -1074)).
    { unfold k, fexp, emin, PyFloat.prec, PyFloat.emax. lia. }
    destruct Hk' as [Hk'|[Hk' Hsub]].
    + assert (Hmx : 0 < mx) by (destruct mx; try lia; simpl in d; lia).
      destruct (Zdigits2_bounds mx Hmx) as [Hlo _]. fold d in Hlo.
      assert (Hd1 : 2 ^ (d - 1) = 2 ^ k * 2 ^ 52).
      { rewrite <- Z.pow_add_r by lia. f_equal. lia. }
      rewrite Hsplit. nia.
    + assert (Hz : n = 0).
      { subst n. unfold ipart. apply Z.div_small. split; [lia|].
        replace (ex + k) with (-1074) by lia.
        assert (Hs52 : shr_m mrs1 < 2 ^ 52).
        { rewrite Hs. apply Z.div_lt_upper_bound; [exact Hpk|].
          destruct (Z.eq_dec mx 0) as [->|Hne]; [nia|].
          destruct (Zdigits2_bounds mx ltac:(lia)) as [_ Hhi]. fold d in Hhi.
          assert (2 ^ d <= 2 ^ (k + 52)) by (apply Z.pow_le_mono_r; lia).
          rewrite Z.pow_add_r in * by lia. lia. }
        assert (2 ^ 53 <= 2 ^ 1074) by (apply Z.pow_le_mono_r; lia).
        change (- -1074) with 1074.
        assert (2 ^ 53 = 2 * 2 ^ 52) by reflexivity. lia. }
      rewrite Hz. nia.
Qed.



(** The sign is only a tag on the result. *)
Lemma binary_round_aux_sign sx mx ex lx :
  binary_round_aux PyFloat.prec PyFloat.emax sx mx ex lx
  = match binary_round_aux PyFloat.prec PyFloat.emax false mx ex lx with
    | S754_zero _ => S754_zero sx
    | S754_infinity _ => S754_infinity sx
    | S754_nan => S754_nan
    | S754_finite _ m e => S754_finite sx m e
    end.
Proof.
  unfold binary_round_aux.
  destruct (shr_fexp PyFloat.prec PyFloat.emax mx ex lx) as [mrs1 e1].
  destruct (shr_fexp PyFloat.prec PyFloat.emax _ e1 loc_Exact) as [mrs2 e2].
  destruct (shr_m mrs2); [reflexivity | | reflexivity].
  destruct (e2 <=? PyFloat.emax - PyFloat.prec); reflexivity.
Qed.

(** Both bounds, for either sign: [int()] truncates toward zero. *)
Lemma binary_round_aux_near sx mx ex lx :
  0 <= mx < 2 ^ (52 - ex) -> ex <= 0 ->
  exists n,
    PyFloat.to_int (binary_round_aux PyFloat.prec PyFloat.emax sx mx ex lx)
    = Ok (if sx then - n else n)
    /\ ipart mx ex <= n <= ipart mx ex + 1
    /\ n * 2 ^ (- ex) * 2 ^ 52 <= mx * (2 ^ 52 + 1) + inexact_unit lx * 2 ^ 52.
Proof.
  intros Hm He.
  destruct (binary_round_aux_trunc mx ex lx Hm He) as (n & Hn & Hfl).
  pose proof (binary_round_aux_above _ _ _ _ Hm He Hn) as Hab.
  exists n. split; [|split; assumption].
  rewrite binary_round_aux_sign.
  pose proof (binary_round_aux_sign false mx ex lx) as Hf.
  destruct (binary_round_aux PyFloat.prec PyFloat.emax false mx ex lx)
    as [s|s| |s m e]; try discriminate.
  - cbn in Hn |- *. injection Hn as <-. destruct sx; reflexivity.
  - injection Hf as ->. cbn [PyFloat.to_int] in *. injection Hn as <-.
    reflexivity.
Qed.

Lemma pow2_pos k : 0 <= k -> 0 < 2 ^ k.
Proof. intros Hk. apply Z.pow_pos_nonneg; lia. Qed.

Lemma pow2_lt_inv a b : 0 <= b -> 2 ^ a < 2 ^ b -> a < b.
Proof. intros Hb H. apply (Z.pow_lt_mono_r_iff 2); [lia | exact Hb | exact H]. Qed.

Lemma pow2_le a b : 0 <= a <= b -> 2 ^ a <= 2 ^ b.
Proof. intros H. apply Z.pow_le_mono_r; lia. Qed.

Lemma pow2_split a b : 0 <= a -> 0 <= b -> 2 ^ (a + b) = 2 ^ a * 2 ^ b.
Proof. intros. apply Z.pow_add_r; assumption. Qed.

Lemma div_cancel_r a b c : 0 < b -> 0 < c -> (a * c) / (b * c) = a / b.
Proof. intros. apply Z.div_mul_cancel_r; lia. Qed.

(** The product of a 53-bit mantissa for [n] and a finite float, below
    [2^52] in magnitude: [int()] of it is, up to the sign, the integer part
    of the exact product or one more, and at most [2^-52] of the product
    above it. *)
Lemma SFmul_bounds n mz ez s1 s2 m e :
  0 < n -> -52 <= ez <= 0 -> Zpos mz = n * 2 ^ (- ez) ->
  2 ^ 52 <= Zpos mz < 2 ^ 53 ->
  n * (Zpos m * 2 ^ Z.max e 0) < 2 ^ 52 * 2 ^ Z.max (- e) 0 ->
  exists N,
    PyFloat.to_int (PyFloat.mul (S754_finite s1 mz ez) (S754_finite s2 m e))
    = Ok (if xorb s1 s2 then - N else N)
    /\ n * (Zpos m * 2 ^ Z.max e 0) / 2 ^ Z.max (- e) 0 <= N
       <= n * (Zpos m * 2 ^ Z.max e 0) / 2 ^ Z.max (- e) 0 + 1
    /\ N * 2 ^ Z.max (- e) 0 * 2 ^ 52
       <= n * (Zpos m * 2 ^ Z.max e 0) * (2 ^ 52 + 1).
Proof.
  intros Hn Hez Hmz Hmz52 Hmag.
  set (E := - ez) in *. set (P := Z.max e 0) in *. set (F := Z.max (- e) 0) in *.
  assert (HE : 0 <= E <= 52) by (unfold E; lia).
  assert (HP : 0 <= P) by (unfold P; lia).
  assert (HF : 0 <= F) by (unfold F; lia).
  pose proof (pow2_pos E ltac:(lia)) as HpE.
  pose proof (pow2_pos P HP) as HpP.
  pose proof (pow2_pos F HF) as HpF.
  assert (HEP : P <= E).
  { destruct (Z_le_gt_dec P E) as [|Hgt]; [assumption|exfalso].
    assert (HF0 : F = 0) by (unfold P, F in *; lia).
    rewrite HF0, Z.pow_0_r in Hmag.
    assert (2 ^ E <= 2 ^ P) by (apply pow2_le; lia).
    assert (n * 2 ^ E <= n * 2 ^ P) by (apply Z.mul_le_mono_nonneg_l; lia).
    assert (n * 2 ^ P * 1 <= n * 2 ^ P * Zpos m)
      by (apply Z.mul_le_mono_nonneg_l; nia).
    lia. }
  set (c := 2 ^ (E - P)).
  assert (Hc : 0 < c) by (apply pow2_pos; lia).
  assert (Hex : ez + e = - (F + (E - P))) by (unfold E, P, F; lia).
  assert (Hpow : 2 ^ (- (ez + e)) = 2 ^ F * c).
  { rewrite Hex, Z.opp_involutive. apply pow2_split; lia. }
  assert (Hmx : Zpos (mz * m) = n * (Zpos m * 2 ^ P) * c).
  { rewrite Pos2Z.inj_mul, Hmz. unfold c.
    replace E with (P + (E - P)) at 1 by lia. rewrite pow2_split by lia. ring. }
  assert (Hb : 0 <= Zpos (mz * m) < 2 ^ (52 - (ez + e))).
  { split; [lia|]. replace (52 - (ez + e)) with (52 + - (ez + e)) by lia.
    rewrite pow2_split by lia. rewrite Hpow, Hmx. nia. }
  assert (He0 : ez + e <= 0) by lia.
  destruct (binary_round_aux_near (xorb s1 s2) (Zpos (mz * m)) (ez + e) loc_Exact Hb He0)
    as (N & HN & Hfl & Hab).
  exists N. split; [exact HN|]. split.
  - unfold ipart in Hfl. rewrite Hpow, Hmx in Hfl.
    rewrite div_cancel_r in Hfl by lia. exact Hfl.
  - cbn [inexact_unit] in Hab. rewrite Hpow, Hmx in Hab.
    rewrite Z.mul_0_l, Z.add_0_r in Hab.
    apply (Z.mul_le_mono_pos_r _ _ c Hc). lia.
Qed.

(** [int(bh * ratio)] for positive operands. *)
Lemma int_mul_trunc n m e :
  0 < n < 2 ^ 53 ->
  n * float_num (S754_finite false m e) < 2 ^ 52 * float_den (S754_finite false m e) ->
  exists x N,
    PyFloat.int_mul n (S754_finite false m e) = Ok x
    /\ PyFloat.to_int x = Ok N
    /\ n * float_num (S754_finite false m e) / float_den (S754_finite false m e) <= N
       <= n * float_num (S754_finite false m e) / float_den (S754_finite false m e) + 1
    /\ N * float_den (S754_finite false m e) * 2 ^ 52
       <= n * float_num (S754_finite false m e) * (2 ^ 52 + 1).
Proof.
  intros Hn Hmag. cbn [float_num float_den] in *.
  destruct (of_int_exact n ltac:(lia) ltac:(lia)) as (mz & ez & Hof & Hez & Hmz & Hmz52).
  replace (n <? 0) with false in Hof by (symmetry; apply Z.ltb_ge; lia).
  rewrite Z.abs_eq in Hmz by lia.
  destruct (SFmul_bounds n mz ez false false m e ltac:(lia) Hez Hmz Hmz52 Hmag)
    as (N & HN & Hfl & Hab).
  eexists _, N. split; [|split; [exact HN | split; assumption]].
  unfold PyFloat.int_mul. rewrite Hof. reflexivity.
Qed.

Lemma SFdiv_core_binary_spec m1 e1 m2 e2 q e' l :
  SFdiv_core_binary PyFloat.prec PyFloat.emax (Zpos m1) e1 (Zpos m2) e2 = (q, e', l) ->
  e' = Z.min (fexp PyFloat.prec PyFloat.emax
                (Zdigits2 (Zpos m1) + e1 - (Zdigits2 (Zpos m2) + e2))) (e1 - e2)
  /\ q = Zpos m1 * 2 ^ (e1 - e2 - e') / Zpos m2.
Proof.
  unfold SFdiv_core_binary.
  set (x := Z.min _ _).
  assert (Hs : 0 <= e1 - e2 - x) by (unfold x; lia).
  set (m' := match e1 - e2 - x with 0 => Zpos m1 | Zpos _ => _ | Zneg _ => _ end).
  assert (Hm' : m' = Zpos m1 * 2 ^ (e1 - e2 - x)).
  { unfold m'. destruct (e1 - e2 - x) as [|p|p] eqn:E; try lia.
    apply Z.shiftl_mul_pow2. lia. }
  destruct (Z.div_eucl m' (Zpos m2)) as [q0 r0] eqn:Hqr.
  assert (Hq : q0 = m' / Zpos m2) by (unfold Z.div; rewrite Hqr; reflexivity).
  intros H. injection H as <- <- <-. split; [reflexivity|]. rewrite Hq, Hm'. reflexivity.
Qed.

(** The quotient of a 53-bit mantissa for [n] by a finite float, below
    [2^52] in magnitude: [int()] of it is, up to the sign, the integer part
    of the exact quotient or one more, and at most [2^-51] of the quotient
    above it. *)
Lemma SFdiv_bounds n mz ez s1 s2 m e :
  0 < n -> -52 <= ez <= 0 -> Zpos mz = n * 2 ^ (- ez) ->
  2 ^ 52 <= Zpos mz < 2 ^ 53 ->
  n * 2 ^ Z.max (- e) 0 < 2 ^ 52 * (Zpos m * 2 ^ Z.max e 0) ->
  exists N,
    PyFloat.to_int (SFdiv PyFloat.prec PyFloat.emax
                      (S754_finite s1 mz ez) (S754_finite s2 m e))
    = Ok (if xorb s1 s2 then - N else N)
    /\ n * 2 ^ Z.max (- e) 0 / (Zpos m * 2 ^ Z.max e 0) <= N
       <= n * 2 ^ Z.max (- e) 0 / (Zpos m * 2 ^ Z.max e 0) + 1
    /\ N * (Zpos m * 2 ^ Z.max e 0) * 2 ^ 52
       <= n * 2 ^ Z.max (- e) 0 * (2 ^ 52 + 2).
Proof.
  intros Hn Hez Hmz Hmz52 Hmag.
  set (E := - ez) in *. set (P := Z.max e 0) in *. set (F := Z.max (- e) 0) in *.
  assert (HE : 0 <= E <= 52) by (unfold E; lia).
  assert (HP : 0 <= P) by (unfold P; lia).
  assert (HF : 0 <= F) by (unfold F; lia).
  pose proof (pow2_pos E ltac:(lia)) as HpE.
  pose proof (pow2_pos P HP) as HpP.
  pose proof (pow2_pos F HF) as HpF.
  assert (Hd1 : Zdigits2 (Zpos mz) = 53) by (apply Zdigits2_unique; [exact Hmz52 | lia]).
  destruct (Zdigits2_bounds (Zpos m) ltac:(lia)) as [Hd2lo Hd2hi].
  set (d2 := Zdigits2 (Zpos m)) in *.
  assert (Hd2 : 1 <= d2) by (unfold d2; simpl; lia).
  unfold SFdiv.
  destruct (SFdiv_core_binary PyFloat.prec PyFloat.emax (Zpos mz) ez (Zpos m) e)
    as [[q e'] l] eqn:Hcore.
  destruct (SFdiv_core_binary_spec _ _ _ _ _ _ _ Hcore) as [He' Hq].
  rewrite Hd1 in He'. fold d2 in He'.
  unfold fexp, emin, PyFloat.prec, PyFloat.emax in He'.
  set (A := - e').
  assert (HFE : F - E < d2).
  { destruct (Z_lt_le_dec (F - E) d2) as [|Hge]; [assumption|exfalso].
    assert (HP0 : P = 0) by (unfold P, F in *; lia).
    rewrite HP0, Z.pow_0_r in Hmag.
    assert (H1 : 2 ^ (E + d2) <= 2 ^ F) by (apply pow2_le; lia).
    rewrite pow2_split in H1 by lia.
    assert (H2 : n * (2 ^ E * 2 ^ d2) <= n * 2 ^ F)
      by (apply Z.mul_le_mono_nonneg_l; lia).
    assert (H3 : 2 ^ 52 * 2 ^ d2 <= n * 2 ^ E * 2 ^ d2)
      by (apply Z.mul_le_mono_nonneg_r; lia).
    assert (H4 : 2 ^ 52 * Zpos m < 2 ^ 52 * 2 ^ d2)
      by (apply Z.mul_lt_mono_pos_l; [apply pow2_pos|]; lia).
    lia. }
  assert (HAP : P <= A) by (unfold A, P, F, E in *; lia).
  set (c := 2 ^ (A - P)).
  assert (Hc : 0 < c) by (apply pow2_pos; lia).
  assert (HpA : 2 ^ A = 2 ^ P * c).
  { unfold c. rewrite <- pow2_split by lia. f_equal. lia. }
  assert (Hs' : ez - e - e' = F + (A - P) - E) by (unfold A, E, P, F; lia).
  assert (Hs0 : 0 <= ez - e - e') by lia.
  assert (Hm' : Zpos mz * 2 ^ (ez - e - e') = n * 2 ^ F * c).
  { rewrite Hmz. rewrite <- Z.mul_assoc, <- pow2_split by lia.
    replace (E + (ez - e - e')) with (F + (A - P)) by lia.
    rewrite pow2_split by lia. unfold c. ring. }
  rewrite Hm' in Hq.
  assert (Hip : ipart q e' = n * 2 ^ F / (Zpos m * 2 ^ P)).
  { unfold ipart. fold A. rewrite Hq.
    rewrite Z.div_div by lia.
    rewrite HpA, Z.mul_assoc. apply div_cancel_r; lia. }
  assert (Hq0 : 0 <= q) by (rewrite Hq; apply Z.div_pos; nia).
  assert (Hfl52 : ipart q e' < 2 ^ 52).
  { rewrite Hip. apply Z.div_lt_upper_bound; [lia|]. lia. }
  assert (He0 : e' <= 0) by (unfold A in *; lia).
  assert (Hb : 0 <= q < 2 ^ (52 - e')).
  { split; [exact Hq0|]. replace (52 - e') with (A + 52) by (unfold A; lia).
    rewrite pow2_split by lia. unfold ipart in Hfl52. fold A in Hfl52.
    pose proof (pow2_pos A ltac:(lia)) as HA.
    pose proof (Z.mul_succ_div_gt q (2 ^ A) HA). nia. }
  destruct (binary_round_aux_near (xorb s1 s2) q e' l Hb He0) as (N & HN & Hfl & Hab).
  exists N. split; [exact HN|]. split.
  - rewrite Hip in Hfl. exact Hfl.
  - assert (HN0 : 0 <= N).
    { etransitivity; [|apply Hfl]. unfold ipart. apply Z.div_pos; [exact Hq0|].
      apply pow2_pos. lia. }
    assert (Hu : 0 <= inexact_unit l <= 1) by (destruct l; simpl; lia).
    assert (Hqm : q * Zpos m <= n * 2 ^ F * c).
    { rewrite Hq, Z.mul_comm. apply Z.mul_div_le. lia. }
    fold A in Hab.
    assert (Hp52 : 0 < 2 ^ 52) by (apply pow2_pos; lia).
    destruct (Z_le_gt_dec (-1074) (ez - e - d2)) as [Hnorm|Htiny].
    + assert (Hsd : ez - e - e' = d2) by lia.
      assert (Hm52 : Zpos m * 2 ^ 52 <= n * 2 ^ F * c).
      { rewrite <- Hm', Hsd.
        assert (2 ^ 52 * Zpos m <= 2 ^ 52 * 2 ^ d2)
          by (apply Z.mul_le_mono_nonneg_l; lia).
        assert (2 ^ 52 * 2 ^ d2 <= Zpos mz * 2 ^ d2)
          by (apply Z.mul_le_mono_nonneg_r; lia).
        lia. }
      apply (Z.mul_le_mono_pos_r _ _ c Hc).
      assert (H1 : N * 2 ^ A * 2 ^ 52 * Zpos m
                   <= (q * (2 ^ 52 + 1) + inexact_unit l * 2 ^ 52) * Zpos m)
        by (apply Z.mul_le_mono_nonneg_r; lia).
      assert (H2 : inexact_unit l * 2 ^ 52 * Zpos m <= 1 * (2 ^ 52 * Zpos m))
        by (rewrite <- Z.mul_assoc; apply Z.mul_le_mono_nonneg_r; lia).
      assert (H3 : q * Zpos m * (2 ^ 52 + 1) <= n * 2 ^ F * c * (2 ^ 52 + 1))
        by (apply Z.mul_le_mono_nonneg_r; lia).
      rewrite HpA in H1. lia.
    + assert (HA : 1074 <= A) by (unfold A; lia).
      assert (Hs2 : 2 ^ (ez - e - e') <= Zpos m).
      { destruct (Z.eq_dec (ez - e - e') 0) as [->|Hne]; [simpl; lia|].
        etransitivity; [|exact Hd2lo]. apply pow2_le. lia. }
      assert (Hqmz : q <= Zpos mz).
      { rewrite Hq, <- Hm'. apply Z.div_le_upper_bound; [lia|].
        rewrite (Z.mul_comm (Zpos m)). apply Z.mul_le_mono_nonneg_l; lia. }
      assert (H55 : 2 ^ 55 <= 2 ^ A) by (apply pow2_le; lia).
      assert (Hz : N = 0).
      { assert (Hip0 : ipart q e' = 0).
        { unfold ipart. fold A. apply Z.div_small. split; [exact Hq0|].
          assert (2 ^ 53 <= 2 ^ 55) by (apply pow2_le; lia). lia. }
        rewrite Hip0 in Hfl.
        destruct (Z.eq_dec N 0) as [|Hne]; [assumption|exfalso].
        assert (N = 1) by lia. subst N.
        assert (H1 : 2 ^ 55 * 2 ^ 52 <= 1 * 2 ^ A * 2 ^ 52)
          by (rewrite Z.mul_1_l; apply Z.mul_le_mono_nonneg_r; lia).
        assert (H2 : q * (2 ^ 52 + 1) <= 2 ^ 53 * (2 ^ 52 + 1))
          by (apply Z.mul_le_mono_nonneg_r; lia).
        assert (H3 : inexact_unit l * 2 ^ 52 <= 1 * 2 ^ 52)
          by (apply Z.mul_le_mono_nonneg_r; lia).
        assert (H4 : 2 ^ 53 * (2 ^ 52 + 1) + 1 * 2 ^ 52 < 2 ^ 55 * 2 ^ 52) by reflexivity.
        lia. }
      rewrite Hz. rewrite !Z.mul_0_l.
      apply Z.mul_nonneg_nonneg; [|lia]. apply Z.mul_nonneg_nonneg; lia.
Qed.

(** [int(bw / ratio)] for positive operands. *)
Lemma int_div_trunc n m e :
  0 < n < 2 ^ 53 ->
  n * float_den (S754_finite false m e) < 2 ^ 52 * float_num (S754_finite false m e) ->
  exists x N,
    PyFloat.int_div n (S754_finite false m e) = Ok x
    /\ PyFloat.to_int x = Ok N
    /\ n * float_den (S754_finite false m e) / float_num (S754_finite false m e) <= N
       <= n * float_den (S754_finite false m e) / float_num (S754_finite false m e) + 1
    /\ N * float_num (S754_finite false m e) * 2 ^ 52
       <= n * float_den (S754_finite false m e) * (2 ^ 52 + 2).
Proof.
  intros Hn Hmag. cbn [float_num float_den] in *.
  destruct (of_int_exact n ltac:(lia) ltac:(lia)) as (mz & ez & Hof & Hez & Hmz & Hmz52).
  replace (n <? 0) with false in Hof by (symmetry; apply Z.ltb_ge; lia).
  rewrite Z.abs_eq in Hmz by lia.
  destruct (SFdiv_bounds n mz ez false false m e ltac:(lia) Hez Hmz Hmz52 Hmag)
    as (N & HN & Hfl & Hab).
  eexists _, N. split; [|split; [exact HN | split; assumption]].
  unfold PyFloat.int_div. rewrite Hof. reflexivity.
Qed.

Lemma float_den_pos x : 0 < float_den x.
Proof. destruct x; simpl; try lia. Qed.

Lemma float_num_pos m e : 0 < float_num (S754_finite false m e).
Proof. simpl. pose proof (pow2_pos (Z.max e 0)). nia. Qed.



Lemma value_mul_near a b x :
  Z.abs (a * float_den x - b * float_num x) < 2 * float_den x ->
  (Qabs (inject_Z a - inject_Z b * value x) < 2)%Q.
Proof.
  intros H. pose proof (float_den_pos x) as Hd.
  apply Qabs_Qlt_condition.
  unfold value, Qlt, Qminus, Qplus, Qopp, Qmult, inject_Z. cbn [Qnum Qden].
  rewrite !Pos.mul_1_l, Z2Pos.id by exact Hd. lia.
Qed.

Lemma value_div_near a b x :
  float_num x <> 0 ->
  Z.abs (a * float_num x - b * float_den x) < 2 * Z.abs (float_num x) ->
  (Qabs (inject_Z a - inject_Z b / value x) < 2)%Q.
Proof.
  intros Hn H. pose proof (float_den_pos x) as Hd.
  apply Qabs_Qlt_condition.
  unfold value, Qdiv, Qinv. cbn [Qnum Qden].
  destruct (float_num x) as [|p|p] eqn:Hp; try lia;
    unfold Qlt, Qminus, Qplus, Qopp, Qmult, inject_Z; cbn [Qnum Qden];
    rewrite <- ?Pos2Z.opp_pos in *;
    rewrite !Pos.mul_1_l, ?Z2Pos.id by exact Hd; lia.
Qed.

Lemma value_mul_abs_lt a x k :
  (Qabs (inject_Z a * value x) < inject_Z k)%Q ->
  Z.abs (a * float_num x) < k * float_den x.
Proof.
  pose proof (float_den_pos x) as Hd. intros H.
  apply Qabs_Qlt_condition in H. revert H.
  unfold value, Qlt, Qopp, Qmult, inject_Z. cbn [Qnum Qden].
  rewrite !Pos.mul_1_l, Z2Pos.id by exact Hd. lia.
Qed.

Lemma value_div_abs_lt a x k :
  (Qabs (inject_Z a / value x) < inject_Z k)%Q ->
  float_num x = 0 \/ Z.abs (a * float_den x) < k * Z.abs (float_num x).
Proof.
  pose proof (float_den_pos x) as Hd. intros H.
  apply Qabs_Qlt_condition in H.
  unfold value, Qdiv, Qinv in H. cbn [Qnum Qden] in H.
  destruct (float_num x) as [|p|p] eqn:Hp; [left; reflexivity|right..];
    unfold Qlt, Qopp, Qmult, inject_Z in H; cbn [Qnum Qden] in H;
    rewrite <- ?Pos2Z.opp_pos in *;
    rewrite ?Pos.mul_1_l, ?Z2Pos.id in H by exact Hd; lia.
Qed.

Lemma to_int_ok_finite x n :
  PyFloat.to_int x = Ok n -> PyFloat.finite_or_overflow x = Ok x.
Proof. destruct x; simpl; intros H; try reflexivity. discriminate. Qed.

(** [bw/bh] on two positive ints below [2^52] is a float. *)
Lemma int_truediv_returns a b :
  0 < a < 2 ^ 52 -> 0 < b ->
  exists cr, PyFloat.int_truediv a b = Ok cr.
Proof.
  intros Ha Hb. unfold PyFloat.int_truediv.
  destruct a as [|pa|pa]; try lia. destruct b as [|pb|pb]; try lia.
  cbn [Z.eqb Z.ltb Z.compare Z.abs Z.to_pos]. unfold SFdiv. cbn [xorb].
  change (Z.to_pos (Z.abs (Zpos pa))) with pa.
  change (Z.to_pos (Z.abs (Zpos pb))) with pb.
  destruct (SFdiv_core_binary PyFloat.prec PyFloat.emax (Zpos pa) 0 (Zpos pb) 0)
    as [[q e'] l] eqn:Hcore.
  destruct (SFdiv_core_binary_spec _ _ _ _ _ _ _ Hcore) as [He' Hq].
  assert (He0 : e' <= 0) by lia.
  assert (Hp : 0 < 2 ^ (- e')) by (apply pow2_pos; lia).
  assert (Hb' : 0 <= q < 2 ^ (52 - e')).
  { rewrite Hq. replace (0 - 0 - e') with (- e') by lia. split.
    - apply Z.div_pos; nia.
    - replace (52 - e') with (52 + - e') by lia. rewrite pow2_split by lia.
      apply Z.div_lt_upper_bound; [lia|]. nia. }
  destruct (binary_round_aux_trunc q e' l Hb' He0) as (n & Hn & _).
  rewrite (to_int_ok_finite _ _ Hn). eauto.
Qed.

(** [int(n * ratio)] for operands of either sign, zero included: less than
    one from the exact product. *)
Lemma int_mul_near n ratio :
  has_value ratio = true ->
  Z.abs n < 2 ^ 53 ->
  Z.abs (n * float_num ratio) < 2 ^ 52 * float_den ratio ->
  exists x N,
    PyFloat.int_mul n ratio = Ok x
    /\ PyFloat.to_int x = Ok N
    /\ Z.abs (N * float_den ratio - n * float_num ratio) < float_den ratio.
Proof.
  intros Hv Hn Hmag. pose proof (float_den_pos ratio) as Hden.
  unfold PyFloat.int_mul.
  destruct (Z.eq_dec n 0) as [->|Hne].
  - rewrite of_int_0. cbn [rbind].
    destruct ratio as [s| | |s m e]; try discriminate;
      (eexists _, 0; split; [reflexivity|]; split; [reflexivity|]);
      rewrite !Z.mul_0_l; cbn [Z.sub Z.opp Z.add Z.abs]; exact Hden.
  - destruct (of_int_exact n Hne Hn) as (mz & ez & Hof & Hez & Hmz & Hmz52).
    rewrite Hof. cbn [rbind].
    destruct ratio as [s| | |s m e]; try discriminate.
    + eexists _, 0. split; [reflexivity|]. split; [reflexivity|].
      cbn [float_num float_den]. rewrite Z.mul_0_r. cbn. lia.
    + cbn [float_num float_den] in *.
      set (Y := Zpos m * 2 ^ Z.max e 0) in *.
      set (D := 2 ^ Z.max (- e) 0) in *.
      assert (HY : 0 < Y) by (unfold Y; pose proof (pow2_pos (Z.max e 0)); nia).
      assert (Hnum : (if s then - Zpos m else Zpos m) * 2 ^ Z.max e 0
                     = if s then - Y else Y) by (unfold Y; destruct s; ring).
      rewrite Hnum in *.
      assert (Habs : Z.abs (n * (if s then - Y else Y)) = Z.abs n * Y).
      { rewrite Z.abs_mul. f_equal. destruct s; lia. }
      rewrite Habs in Hmag.
      destruct (SFmul_bounds (Z.abs n) mz ez (n <? 0) s m e
                  ltac:(lia) Hez Hmz Hmz52 Hmag) as (N & HN & Hfl & Hab).
      fold Y D in Hfl, Hab.
      eexists _, _. split; [reflexivity|]. split; [exact HN|].
      pose proof (Z.mul_succ_div_gt (Z.abs n * Y) D Hden) as Hlo.
      assert (Hlo' : Z.abs n * Y < N * D + D) by nia.
      assert (Hhi : N * D < Z.abs n * Y + D).
      { assert (Hp52 : 0 < 2 ^ 52) by (apply pow2_pos; lia).
        apply (Z.mul_lt_mono_pos_r (2 ^ 52)); [exact Hp52|]. lia. }
      destruct (Z.ltb_spec n 0), s; cbn [xorb]; lia.
Qed.

(** [int(n / ratio)] for operands of either sign, zero numerator included:
    less than one from the exact quotient. *)
Lemma int_div_near n ratio :
  float_num ratio <> 0 ->
  Z.abs n < 2 ^ 53 ->
  Z.abs (n * float_den ratio) < 2 ^ 51 * Z.abs (float_num ratio) ->
  exists x N,
    PyFloat.int_div n ratio = Ok x
    /\ PyFloat.to_int x = Ok N
    /\ Z.abs (N * float_num ratio - n * float_den ratio) < Z.abs (float_num ratio).
Proof.
  intros Hnz Hn Hmag. pose proof (float_den_pos ratio) as Hden.
  rewrite Z.abs_mul, (Z.abs_eq (float_den ratio)) in Hmag by lia.
  destruct ratio as [s| | |s m e]; try (cbn in Hnz; congruence).
  unfold PyFloat.int_div.
  cbn [float_num float_den] in *.
  set (Y := Zpos m * 2 ^ Z.max e 0) in *.
  set (D := 2 ^ Z.max (- e) 0) in *.
  assert (HY : 0 < Y) by (unfold Y; pose proof (pow2_pos (Z.max e 0)); nia).
  assert (Hnum : (if s then - Zpos m else Zpos m) * 2 ^ Z.max e 0
                 = if s then - Y else Y) by (unfold Y; destruct s; ring).
  rewrite Hnum in *.
  assert (Habs : Z.abs (if s then - Y else Y) = Y) by (destruct s; lia).
  rewrite Habs in *.
  destruct (Z.eq_dec n 0) as [->|Hne].
  - rewrite of_int_0. cbn [rbind]. unfold PyFloat.div. cbn [PyFloat.is_zero SFdiv].
    eexists _, 0. split; [reflexivity|]. split; [reflexivity|].
    rewrite !Z.mul_0_l. cbn [Z.sub Z.opp Z.add Z.abs]. exact HY.
  - destruct (of_int_exact n Hne Hn) as (mz & ez & Hof & Hez & Hmz & Hmz52).
    rewrite Hof. cbn [rbind]. unfold PyFloat.div. cbn [PyFloat.is_zero].
    assert (Hmag' : Z.abs n * D < 2 ^ 52 * Y).
    { assert (2 ^ 52 = 2 * 2 ^ 51) by reflexivity. nia. }
    destruct (SFdiv_bounds (Z.abs n) mz ez (n <? 0) s m e
                ltac:(lia) Hez Hmz Hmz52 Hmag') as (N & HN & Hfl & Hab).
    fold Y D in Hfl, Hab.
    eexists _, _. split; [reflexivity|]. split; [exact HN|].
    pose proof (Z.mul_succ_div_gt (Z.abs n * D) Y HY) as Hlo.
    assert (Hlo' : Z.abs n * D < N * Y + Y) by nia.
    assert (Hhi : N * Y < Z.abs n * D + Y).
    { assert (Hp52 : 0 < 2 ^ 52) by (apply pow2_pos; lia).
      assert (H5152 : 2 ^ 52 = 2 * 2 ^ 51) by reflexivity.
      apply (Z.mul_lt_mono_pos_r (2 ^ 52)); [exact Hp52|]. lia. }
    destruct (Z.ltb_spec n 0), s; cbn [xorb]; lia.
Qed.

(** The box [grow] reaches, with both rounding bounds: the new extent, cleared
    of the denominator of the ratio, is less than two pixels from the exact
    product or quotient. *)
Lemma grow_on_ratio l t r b ratio bx :
  has_value ratio = true ->
  t < b ->
  Z.abs (r - l) < 2 ^ 51 -> b - t < 2 ^ 51 ->
  Z.abs ((b - t) * float_num ratio) < 2 ^ 51 * float_den ratio ->
  (float_num ratio = 0
   \/ Z.abs ((r - l) * float_den ratio) < 2 ^ 51 * Z.abs (float_num ratio)) ->
  grow l t r b ratio = Ok bx ->
  (height bx = b - t
   /\ Z.abs (width bx * float_den ratio - (b - t) * float_num ratio)
      < 2 * float_den ratio)
  \/ (width bx = r - l
      /\ float_num ratio <> 0
      /\ Z.abs (height bx * float_num ratio - (r - l) * float_den ratio)
         < 2 * Z.abs (float_num ratio)).
Proof.
  intros Hv Htb Hw Hh Hmul Hdiv Hg.
  pose proof (float_den_pos ratio) as Hden.
  assert (H5152 : 2 ^ 52 = 2 * 2 ^ 51) by reflexivity.
  assert (H5153 : 2 ^ 53 = 4 * 2 ^ 51) by reflexivity.
  unfold grow in Hg. apply rbind_ok in Hg as (cr & _ & Hg).
  destruct (PyFloat.ltb cr ratio).
  - apply rbind_ok in Hg as (x & Hx & Hg). apply rbind_ok in Hg as (nw & Hnw & Hg).
    injection Hg as <-.
    destruct (int_mul_near (b - t) ratio Hv ltac:(lia) ltac:(lia))
      as (x' & N & Hx' & HN & Hnear).
    assert (x' = x) by congruence. subst x'.
    assert (N = nw) by congruence. subst N.
    left. unfold width, height. split; [reflexivity|].
    set (d := (nw - (r - l)) / 2) in *.
    assert (Hd : 0 <= nw - (r + d - (l - d)) <= 1) by (unfold d; div_lia).
    assert (Hdd : 0 <= (nw - (r + d - (l - d))) * float_den ratio <= float_den ratio)
      by nia.
    lia.
  - apply rbind_ok in Hg as (x & Hx & Hg). apply rbind_ok in Hg as (nh & Hnh & Hg).
    injection Hg as <-.
    assert (Hnz : float_num ratio <> 0).
    { destruct ratio as [s| | |s m e]; try discriminate.
      - unfold PyFloat.int_div in Hx.
        destruct (PyFloat.of_int (r - l)); cbn in Hx; discriminate.
      - cbn. pose proof (pow2_pos (Z.max e 0)). destruct s; nia. }
    destruct Hdiv as [Hz|Hdiv]; [contradiction|].
    destruct (int_div_near (r - l) ratio Hnz ltac:(lia) Hdiv)
      as (x' & N & Hx' & HN & Hnear).
    assert (x' = x) by congruence. subst x'.
    assert (N = nh) by congruence. subst N.
    right. unfold width, height. split; [reflexivity|]. split; [exact Hnz|].
    set (d := (nh - (b - t)) / 2) in *.
    assert (Hd : 0 <= nh - (b + d - (t - d)) <= 1) by (unfold d; div_lia).
    assert (Hdd : Z.abs ((nh - (b + d - (t - d))) * float_num ratio)
                  <= Z.abs (float_num ratio)).
    { rewrite Z.abs_mul. rewrite (Z.abs_eq (nh - _)) by lia.
      pose proof (Z.abs_nonneg (float_num ratio)). nia. }
    lia.
Qed.

(** For a box of positive extents and a positive ratio the expansion step
    returns. *)
Lemma grow_returns l t r b ratio :
  positive_finite ratio = true ->
  0 < r - l < 2 ^ 52 -> 0 < b - t < 2 ^ 52 ->
  (b - t) * float_num ratio < 2 ^ 52 * float_den ratio ->
  (r - l) * float_den ratio < 2 ^ 52 * float_num ratio ->
  exists bx, grow l t r b ratio = Ok bx.
Proof.
  intros Hpf Hw Hh Hmul Hdiv.
  destruct ratio as [| | |[|] m e]; try discriminate.
  destruct (int_truediv_returns (r - l) (b - t) Hw ltac:(lia)) as (cr & Hcr).
  unfold grow. rewrite Hcr. cbn [rbind].
  destruct (PyFloat.ltb cr (S754_finite false m e)).
  - destruct (int_mul_trunc (b - t) m e ltac:(lia) Hmul) as (x & N & Hx & HN & _).
    rewrite Hx. cbn [rbind]. rewrite HN. cbn [rbind]. eauto.
  - destruct (int_div_trunc (r - l) m e ltac:(lia) Hdiv) as (x & N & Hx & HN & _).
    rewrite Hx. cbn [rbind]. rewrite HN. cbn [rbind]. eauto.
Qed.





End Rounding.

Section GeometryClaims.

Local Open Scope res_scope.

(** The floats used in the examples, as [tw/th] produces them. *)
Example ratio_1_2 : ratio_of 1 2 = Ok (S754_finite false 4503599627370496 (-53)).
Proof. vm_compute. reflexivity. Qed.

Example ratio_1_1 : ratio_of 1 1 = Ok (S754_finite false 4503599627370496 (-52)).
Proof. vm_compute. reflexivity. Qed.

Example ratio_900_700 : ratio_of 900 700 = Ok (S754_finite false 5790342378047781 (-52)).
Proof. vm_compute. reflexivity. Qed.

(** The scenario of the specification: a 1000x800 image, pad 40, no detector,
    profile 300x400. *)
Example center_square_scenario : center_square 1000 800 40 = (140, 40, 860, 760).
Proof. reflexivity. Qed.

Example expand_aspect_scenario :
  (ratio <- ratio_of 300 400 ;; expand_aspect 140 40 860 760 ratio 1000 800 40)
  = Ok (100, 0, 900, 800).
Proof. vm_compute. reflexivity. Qed.

(** C1, as stated, fails: a 100x200 box is on the ratio 1/2 and is not
    expanded; with pad 40 and nothing truncated by the clamp, the returned
    box is 180x280: 180 is 40 pixels from [280 * ratio] and 280 is 80 pixels
    from [180 / ratio]. *)
Lemma expand_aspect_pad_breaks_ratio :
  let ratio := S754_finite false 4503599627370496 (-53) in
  ratio_of 1 2 = Ok ratio
  /\ expand_aspect 100 100 200 300 ratio 1000 1000 40 = Ok (60, 60, 240, 340)
  /\ grow 100 100 200 300 ratio = Ok (100, 100, 200, 300)
  /\ clamp (add_pad (100, 100, 200, 300) 40) 1000 1000
     = add_pad (100, 100, 200, 300) 40
  /\ ~ width_on_ratio (60, 60, 240, 340) ratio
  /\ ~ height_on_ratio (60, 60, 240, 340) ratio
  /\ meets_ratio (60, 60, 240, 340) ratio = false.
Proof.
  cbv zeta. split; [vm_compute; reflexivity|]. split; [vm_compute; reflexivity|].
  split; [vm_compute; reflexivity|].
  split; [reflexivity|]. split; [|split].
  - unfold width_on_ratio. vm_compute. intros H. discriminate H.
  - unfold height_on_ratio. vm_compute. intros H. discriminate H.
  - vm_compute. reflexivity.
Qed.

(** C1 (amended): for every box with [t < b] and every ratio that is a
    number, the extents and the two exact targets being below [2^51] in
    absolute value: when [expand_aspect] returns, the box [bx] it reaches
    before the pad and the clamp keeps one extent, and its other extent
    differs from the exact [height * ratio], or [width / ratio], by less than
    two pixels (less than one on each of the two sides moved), [ratio] being
    the exact value of the float.  The returned box is [bx] grown by [pad]
    on every side and clamped to the image: it is [bx] itself when [pad = 0]
    and [bx] lies in the image.  [expand_aspect] does return when [l < r]
    and the ratio is positive. *)
Theorem expand_aspect_ratio_before_pad l t r b ratio w h pad :
  has_value ratio = true ->
  t < b ->
  Z.abs (r - l) < 2 ^ 51 -> b - t < 2 ^ 51 ->
  (Qabs (inject_Z (b - t) * value ratio) < inject_Z (2 ^ 51))%Q ->
  (Qabs (inject_Z (r - l) / value ratio) < inject_Z (2 ^ 51))%Q ->
  (forall out,
     expand_aspect l t r b ratio w h pad = Ok out ->
     exists bx,
       grow l t r b ratio = Ok bx
       /\ out = clamp (add_pad bx pad) w h
       /\ ((height bx = b - t /\ width_on_ratio bx ratio)
           \/ (width bx = r - l /\ height_on_ratio bx ratio))
       /\ (pad = 0 -> within bx w h = true -> out = bx))
  /\ (l < r -> positive_finite ratio = true ->
      exists out, expand_aspect l t r b ratio w h pad = Ok out).
Proof.
  intros Hv Htb Hw Hh Hmul Hdiv.
  apply value_mul_abs_lt in Hmul. apply value_div_abs_lt in Hdiv.
  assert (H5152 : 2 ^ 52 = 2 * 2 ^ 51) by reflexivity.
  split.
  - intros out H. unfold expand_aspect in H.
    apply rbind_ok in H as (bx & Hg & Hout). injection Hout as <-.
    exists bx. split; [exact Hg|]. split; [reflexivity|]. split.
    + destruct (grow_on_ratio l t r b ratio bx Hv Htb Hw Hh Hmul Hdiv Hg)
        as [(Hh' & Hn)|(Hw' & Hnz & Hn)].
      * left. split; [exact Hh'|]. unfold width_on_ratio. rewrite Hh'.
        apply value_mul_near, Hn.
      * right. split; [exact Hw'|]. unfold height_on_ratio. rewrite Hw'.
        apply value_div_near; [exact Hnz | exact Hn].
    + intros -> Hin. apply clamp_unpadded, Hin.
  - intros Hlr Hpf.
    assert (Hnum : 0 < float_num ratio).
    { destruct ratio as [| | |[|] m e]; try discriminate. apply float_num_pos. }
    pose proof (float_den_pos ratio) as Hden.
    destruct Hdiv as [Hz|Hdiv]; [lia|].
    destruct (grow_returns l t r b ratio Hpf ltac:(lia) ltac:(lia)) as (bx & Hg);
      [lia | lia |].
    unfold expand_aspect. rewrite Hg. cbn [rbind]. eauto.
Qed.

Lemma expand_aspect_ratio_before_pad_witness :
  (forall out,
     expand_aspect 140 40 860 760 (S754_finite false 6755399441055744 (-53))
       1000 800 40 = Ok out ->
     exists bx,
       grow 140 40 860 760 (S754_finite false 6755399441055744 (-53)) = Ok bx
       /\ out = clamp (add_pad bx 40) 1000 800
       /\ ((height bx = 760 - 40
            /\ width_on_ratio bx (S754_finite false 6755399441055744 (-53)))
           \/ (width bx = 860 - 140
               /\ height_on_ratio bx (S754_finite false 6755399441055744 (-53))))
       /\ (40 = 0 -> within bx 1000 800 = true -> out = bx))
  /\ (140 < 860 ->
      positive_finite (S754_finite false 6755399441055744 (-53)) = true ->
      exists out,
        expand_aspect 140 40 860 760 (S754_finite false 6755399441055744 (-53))
          1000 800 40 = Ok out).
Proof.
  apply (expand_aspect_ratio_before_pad 140 40 860 760
           (S754_finite false 6755399441055744 (-53)) 1000 800 40).
  - reflexivity.
  - lia.
  - lia.
  - lia.
  - vm_compute. reflexivity.
  - vm_compute. reflexivity.
Defined.

(** The tolerance is one pixel on each side, not one pixel in all: the two
    sides move by the same whole number of pixels, so a 2x4 box under ratio
    15/16 stays 2 wide, 1.75 pixels from the exact 3.75. *)
Example expand_aspect_symmetric_growth :
  let ratio := S754_finite false 8444249301319680 (-53) in
  ratio_of 15 16 = Ok ratio
  /\ expand_aspect 0 0 2 4 ratio 10 10 0 = Ok (0, 0, 2, 4)
  /\ width_on_ratio (0, 0, 2, 4) ratio
  /\ ~ (Qabs (inject_Z 2 - inject_Z 4 * value ratio) <= 1)%Q.
Proof.
  cbv zeta. split; [vm_compute; reflexivity|]. split; [vm_compute; reflexivity|].
  split.
  - unfold width_on_ratio. vm_compute. reflexivity.
  - intros H. apply H. vm_compute. reflexivity.
Qed.

(** Beyond [2^53] the floats have no integer resolution: a box of height
    [2^53 + 1] under ratio 1 gets the width [2^53 - 1], two pixels off. *)
Example expand_aspect_large_extent_off_ratio :
  let ratio := S754_finite false 4503599627370496 (-52) in
  expand_aspect 0 0 1 9007199254740993 ratio 1 9007199254740993 0
  = Ok (0, 0, 1, 9007199254740993)
  /\ grow 0 0 1 9007199254740993 ratio
     = Ok (-4503599627370495, 0, 4503599627370496, 9007199254740993)
  /\ ~ width_on_ratio (-4503599627370495, 0, 4503599627370496, 9007199254740993)
         ratio.
Proof.
  cbv zeta. split; [vm_compute; reflexivity|]. split; [vm_compute; reflexivity|].
  unfold width_on_ratio. vm_compute. intros H. discriminate H.
Qed.

(** C2: for a box inside the image, a pad >= 0 and a ratio > 0 the returned
    box should contain the input box; the code breaks this.  A 630x490 box
    has the aspect of a 900x700 profile; the two quotients are the same
    float, the [else] branch computes [int(630/ratio) = 489], and
    [(489-490)//2 = -1] moves [top] down and [bottom] up by one pixel. *)
Theorem expand_aspect_shrinks_box :
  let ratio := S754_finite false 5790342378047781 (-52) in
  ratio_of 900 700 = Ok ratio
  /\ within (100, 100, 730, 590) 1000 800 = true
  /\ proper (100, 100, 730, 590) = true
  /\ aspect_below (100, 100, 730, 590) ratio = Ok false
  /\ target_height 630 ratio = Ok 489
  /\ expand_aspect 100 100 730 590 ratio 1000 800 0 = Ok (100, 101, 730, 589)
  /\ contains (100, 101, 730, 589) (100, 100, 730, 590) = false.
Proof. vm_compute. repeat split; reflexivity. Qed.

(** When the truncated target is not below the current extent, the box is
    kept whole: the returned box contains the input and lies in the image. *)
Lemma expand_aspect_keeps_box_when_grown l t r b ratio w h pad e out :
  0 <= l < r -> r <= w -> 0 <= t < b -> b <= h -> 0 <= pad ->
  grow l t r b ratio = Ok e ->
  contains e (l, t, r, b) = true ->
  expand_aspect l t r b ratio w h pad = Ok out ->
  contains out (l, t, r, b) = true /\ within out w h = true /\ proper out = true.
Proof.
  intros Hl Hr Ht Hb Hp He Hc H. unfold expand_aspect in H. rewrite He in H.
  simpl in H. injection H as <-. destruct e as [[[l1 t1] r1] b1].
  apply contains_spec in Hc. unfold add_pad, clamp.
  rewrite contains_spec, within_spec, proper_spec. lia.
Qed.

(** C3, as stated, fails for a negative pad: the square is larger than the
    image. *)
Lemma center_square_negative_pad_escapes :
  Z.min 10 10 - 2 * (-1) > 0
  /\ center_square 10 10 (-1) = (-1, -1, 11, 11)
  /\ within (center_square 10 10 (-1)) 10 10 = false.
Proof. repeat split; reflexivity. Qed.

(** C3 (amended): for every width, height and pad with [0 <= pad] and
    [min(width,height) - 2*pad > 0], [center_square] returns a box whose two
    extents are [min(width,height) - 2*pad] and which lies in
    [0,width] x [0,height]. *)
Theorem center_square_contained w h pad :
  0 <= pad ->
  Z.min w h - 2 * pad > 0 ->
  width (center_square w h pad) = Z.min w h - 2 * pad
  /\ height (center_square w h pad) = Z.min w h - 2 * pad
  /\ within (center_square w h pad) w h = true.
Proof.
  intros Hp Hs. unfold center_square, width, height.
  rewrite within_spec. div_lia.
Qed.

Lemma center_square_contained_witness :
  width (center_square 1000 800 40) = Z.min 1000 800 - 2 * 40
  /\ height (center_square 1000 800 40) = Z.min 1000 800 - 2 * 40
  /\ within (center_square 1000 800 40) 1000 800 = true.
Proof. apply (center_square_contained 1000 800 40); lia. Defined.



(** Where the ratio test changes side and the second target falls below the
    current extent, the box loses a pixel: here the first application widens
    a 628x490 box to 630x490 with nothing clamped; the second takes the
    other branch and, through the truncated quotient [int(630/ratio) = 489],
    removes a pixel at the top and at the bottom. *)
Example expand_aspect_reapplied_other_side :
  let ratio := S754_finite false 5790342378047781 (-52) in
  aspect_below (101, 100, 729, 590) ratio = Ok true
  /\ expand_aspect 101 100 729 590 ratio 1000 800 0 = Ok (100, 100, 730, 590)
  /\ aspect_below (100, 100, 730, 590) ratio = Ok false
  /\ target_gap (100, 100, 730, 590) ratio = Ok (-1)
  /\ expand_aspect 100 100 730 590 ratio 1000 800 0 = Ok (100, 101, 730, 589).
Proof. vm_compute. repeat split; reflexivity. Qed.


(** In that run the ratio test changes side and the second target is the
    current extent. *)
Example expand_again_other_side_unchanged :
  let ratio := S754_finite false 4503599627370496 (-52) in
  aspect_below (100, 100, 200, 300) ratio = Ok true
  /\ aspect_below (50, 100, 250, 300) ratio = Ok false
  /\ target_gap (50, 100, 250, 300) ratio = Ok 0
  /\ expand_again (50, 100, 250, 300) ratio 1000 1000 = Ok (50, 100, 250, 300).
Proof. vm_compute. repeat split; reflexivity. Qed.

End GeometryClaims.

(** ** Sorting and globbing *)

Section Listing.

Lemma insert_sorted_perm x l : Permutation (insert_sorted x l) (x :: l).
Proof.
  induction l as [|y l IH]; simpl; [reflexivity|].
  destruct (String.leb x y); [reflexivity|].
  rewrite IH. apply perm_swap.
Qed.

Lemma sorted_perm l : Permutation (sorted l) l.
Proof.
  induction l as [|x l IH]; simpl; [reflexivity|].
  rewrite insert_sorted_perm. apply perm_skip, IH.
Qed.

Lemma insert_sorted_ordered x l :
  Sorted (fun a b => String.leb a b = true) l ->
  Sorted (fun a b => String.leb a b = true) (insert_sorted x l).
Proof.
  induction 1 as [|y l Hs IH Hhd]; simpl.
  - repeat constructor.
  - destruct (String.leb x y) eqn:Hxy.
    + constructor; [constructor; assumption | constructor; exact Hxy].
    + constructor; [exact IH|].
      assert (Hyx : String.leb y x = true)
        by (destruct (String.leb_total x y) as [H|H]; congruence).
      destruct Hhd as [|z l Hyz]; simpl.
      * constructor; exact Hyx.
      * destruct (String.leb x z); constructor; assumption.
Qed.

(** [sorted] puts the names in code point order and keeps all of them. *)
Lemma sorted_ordered l : Sorted (fun a b => String.leb a b = true) (sorted l).
Proof.
  induction l as [|x l IH]; simpl; [constructor|].
  apply insert_sorted_ordered, IH.
Qed.

Lemma in_sorted x l : In x (sorted l) <-> In x l.
Proof.
  split; apply Permutation_in; [apply sorted_perm | symmetry; apply sorted_perm].
Qed.

Lemma in_folder_images folder children p :
  In p (folder_images folder children)
  <-> parent p = path_str folder /\ In (name p) children
      /\ ends_with ".jpg" (name p) = true.
Proof.
  unfold folder_images, glob_jpg. rewrite in_map_iff. split.
  - intros (nm & <- & Hin). apply in_sorted, filter_In in Hin. simpl. tauto.
  - intros (Hp & Hin & He). exists (name p). split.
    + destruct p as [d n]. simpl in *. congruence.
    + apply in_sorted, filter_In. tauto.
Qed.

Lemma folder_images_names folder children :
  List.map name (folder_images folder children) = sorted (glob_jpg children).
Proof.
  unfold folder_images. rewrite List.map_map. simpl. apply List.map_id.
Qed.

End Listing.

(** ** Composition: cell sizes *)

Section Cells.

Local Open Scope res_scope.

Lemma floordiv_ok a b q : floordiv a b = Ok q -> b <> 0 /\ q = a / b.
Proof.
  unfold floordiv. destruct (Z.eqb_spec b 0); [discriminate|].
  intros [= <-]. tauto.
Qed.

Lemma length_range n : length (range n) = Z.to_nat n.
Proof. unfold range. rewrite length_map, length_seq. reflexivity. Qed.

(** A row that was pasted made one paste per column, each of the cell size
    at the row's offset, and moved the index by the number of columns. *)
Lemma paste_cols_ok fs imgs cw_cell rh g y cols :
  forall idx ps idx',
    paste_cols fs imgs cw_cell rh g y cols idx = Ok (ps, idx') ->
    idx' = (idx + length cols)%nat
    /\ (cols <> [] -> (idx' <= length imgs)%nat)
    /\ Forall (fun p => paste_w p = cw_cell /\ paste_h p = rh /\ paste_y p = y) ps.
Proof.
  induction cols as [|col cols IH]; intros idx ps idx' H; simpl in H.
  - injection H as <- <-. repeat split; [simpl; lia | congruence | constructor].
  - apply rbind_ok in H as (src & Hsrc & H).
    apply rbind_ok in H as (wh & _ & H).
    apply rbind_ok in H as ([ps1 idx1] & Hrest & H).
    simpl in H. injection H as <- <-.
    destruct (IH _ _ _ Hrest) as (Hidx & Hle & Hall).
    destruct (imgs !! idx) as [q|] eqn:Hq; [|discriminate].
    apply lookup_lt_Some in Hq.
    repeat split.
    + simpl. lia.
    + intros _. destruct cols; [simpl in Hidx; lia | apply Hle; congruence].
    + constructor; [simpl; auto | exact Hall].
Qed.

Lemma paste_rows_ok fs imgs cw ch g all_rows rows :
  forall y idx ps,
    paste_rows fs imgs cw ch g all_rows rows y idx = Ok ps ->
    (images_needed rows = O \/ (idx + images_needed rows <= length imgs)%nat)
    /\ Forall (fun p =>
         paste_h p = (ch - g * (Z.of_nat (length all_rows) - 1))
                     / Z.of_nat (length all_rows)
         /\ exists rcount, In rcount rows
              /\ paste_w p = (cw - g * (rcount - 1)) / rcount) ps.
Proof.
  induction rows as [|rcount rows IH]; intros y idx ps H; simpl in H.
  - injection H as <-. split; [left; reflexivity | constructor].
  - apply rbind_ok in H as (rh & Hrh & H).
    apply rbind_ok in H as (cw_cell & Hcw & H).
    apply rbind_ok in H as ([row idx1] & Hrow & H).
    apply rbind_ok in H as (rest & Hrest & H). injection H as <-.
    apply floordiv_ok in Hrh as (_ & ->). apply floordiv_ok in Hcw as (_ & ->).
    apply paste_cols_ok in Hrow as (Hidx & Hle & Hrow).
    apply IH in Hrest as (Hneed & Hrest). rewrite length_range in Hidx.
    cbn [snd] in Hneed.
    split.
    + change (images_needed (rcount :: rows))
        with (Z.to_nat rcount + images_needed rows)%nat.
      destruct (Z.to_nat rcount) as [|k] eqn:Hn.
      * destruct Hneed as [H0|Hneed]; [left; lia | right; lia].
      * right. assert (Hne : range rcount <> []).
        { intros E. apply (f_equal (@length Z)) in E.
          rewrite length_range, Hn in E. discriminate. }
        specialize (Hle Hne). destruct Hneed as [H0|Hneed]; lia.
    + apply Forall_app. split.
      * eapply List.Forall_impl; [|exact Hrow]. intros p (Hw & Hh & _). split; [exact Hh|].
        exists rcount. split; [left; reflexivity | exact Hw].
      * eapply List.Forall_impl; [|exact Hrest]. intros p (Hh & rc & Hin & Hw).
        split; [exact Hh|]. exists rc. split; [right; exact Hin | exact Hw].
Qed.

(** Floor division leaves less than the divisor. *)
Lemma floor_slack a n : 0 < n -> 0 <= a - n * (a / n) <= n - 1.
Proof.
  intros Hn. pose proof (Z.div_mod a n ltac:(lia)).
  pose proof (Z.mod_pos_bound a n Hn). lia.
Qed.

(** The pastes of one row, cell by cell. *)
Lemma paste_cols_cells fs imgs cw_cell rh g y cols :
  forall idx ps idx',
    paste_cols fs imgs cw_cell rh g y cols idx = Ok (ps, idx') ->
    List.map cell_of ps
    = List.map (fun col => (col * (cw_cell + g), y, cw_cell, rh)) cols.
Proof.
  induction cols as [|col cols IH]; intros idx ps idx' H; simpl in H.
  - injection H as <- <-. reflexivity.
  - apply rbind_ok in H as (src & _ & H).
    apply rbind_ok in H as (wh & _ & H).
    apply rbind_ok in H as ([ps1 idx1] & Hrest & H).
    simpl in H. injection H as <- <-.
    cbn [List.map]. rewrite (IH _ _ _ Hrest). reflexivity.
Qed.

(** The pastes of the rows from row [k] on. *)
Lemma paste_rows_cells fs imgs cw ch g all_rows rows :
  let rh := (ch - g * (Z.of_nat (length all_rows) - 1)) / Z.of_nat (length all_rows) in
  forall k idx ps,
    paste_rows fs imgs cw ch g all_rows rows (k * (rh + g)) idx = Ok ps ->
    List.map cell_of ps = grid_cells_from cw g rh k rows.
Proof.
  intros rh. induction rows as [|rcount rows IH]; intros k idx ps H; simpl in H.
  - injection H as <-. reflexivity.
  - apply rbind_ok in H as (rh' & Hrh & H).
    apply rbind_ok in H as (cw_cell & Hcw & H).
    apply rbind_ok in H as ([row idx1] & Hrow & H).
    apply rbind_ok in H as (rest & Hrest & H). injection H as <-.
    apply floordiv_ok in Hrh as (_ & ->). apply floordiv_ok in Hcw as (_ & ->).
    fold rh in Hrow, Hrest.
    apply paste_cols_cells in Hrow. cbn [snd fst] in Hrest.
    replace (k * (rh + g) + (rh + g)) with ((k + 1) * (rh + g)) in Hrest by ring.
    apply IH in Hrest.
    rewrite List.map_app, Hrow, Hrest. reflexivity.
Qed.

Lemma length_grid_cells_from cw g rh k rows :
  length (grid_cells_from cw g rh k rows) = images_needed rows.
Proof.
  revert k. induction rows as [|rcount rows IH]; intros k; [reflexivity|].
  cbn [grid_cells_from images_needed List.fold_right].
  rewrite length_app. unfold row_cells. rewrite length_map, length_range.
  rewrite IH. reflexivity.
Qed.

(** C5: for a non-empty [rows] of positive column counts, a canvas height
    [ch] and a gutter [g] with [ch - g*(numRows-1) > 0], the pastes of the
    composition are, in order, the cells of the grid: one per column of each
    row, row [k] at [y = k*(rh + g)] with the one row height
    [rh = (ch - g*(numRows-1)) // numRows], its cells of width
    [(cw - g*(rcount-1)) // rcount] for the [rcount] of that row, at
    [x = col*(width + g)].  [numRows*rh + g*(numRows-1)] falls short of [ch]
    by at most [numRows - 1] pixels, and in every row [rcount] cells and
    their gutters fall short of [cw] by at most [rcount - 1] pixels. *)
Theorem cell_partition_slack fs imgs cw ch g rows pastes :
  rows <> [] ->
  Forall (fun rcount => 0 < rcount) rows ->
  ch - g * (Z.of_nat (length rows) - 1) > 0 ->
  paste_rows fs imgs cw ch g rows rows 0 0 = Ok pastes ->
  let num_rows := Z.of_nat (length rows) in
  let rh := (ch - g * (num_rows - 1)) / num_rows in
  List.map cell_of pastes = grid_cells cw ch g rows
  /\ length pastes = images_needed rows
  /\ pastes <> []
  /\ Forall (fun p => paste_h p = rh) pastes
  /\ 0 <= ch - (num_rows * rh + g * (num_rows - 1)) <= num_rows - 1
  /\ Forall (fun p => exists rcount, In rcount rows
               /\ paste_w p = (cw - g * (rcount - 1)) / rcount) pastes
  /\ Forall (fun rcount =>
       let cw_cell := (cw - g * (rcount - 1)) / rcount in
       0 <= cw - (rcount * cw_cell + g * (rcount - 1)) <= rcount - 1) rows.
Proof.
  intros Hne Hpos Hch H num_rows rh.
  assert (Hcells : List.map cell_of pastes = grid_cells cw ch g rows).
  { unfold grid_cells. apply (paste_rows_cells fs imgs cw ch g rows rows 0 O).
    rewrite Z.mul_0_l. exact H. }
  assert (Hlen : length pastes = images_needed rows).
  { rewrite <- (length_map cell_of), Hcells. apply length_grid_cells_from. }
  apply paste_rows_ok in H as (_ & Hall).
  assert (Hn : 0 < num_rows)
    by (subst num_rows; destruct rows; [congruence | simpl; lia]).
  split; [exact Hcells|]. split; [exact Hlen|]. split.
  { intros ->. destruct rows as [|rcount rows']; [congruence|].
    apply Forall_cons in Hpos as [Hrc _].
    cbn [images_needed List.fold_right length] in Hlen. lia. }
  repeat split.
  - eapply List.Forall_impl; [|exact Hall]. intros p (Hh & _). exact Hh.
  - pose proof (floor_slack (ch - g * (num_rows - 1)) num_rows Hn). subst rh. lia.
  - pose proof (floor_slack (ch - g * (num_rows - 1)) num_rows Hn). subst rh. lia.
  - eapply List.Forall_impl; [|exact Hall]. intros p (_ & Hw). exact Hw.
  - eapply List.Forall_impl; [|exact Hpos]. intros rcount Hrc. simpl.
    pose proof (floor_slack (cw - g * (rcount - 1)) rcount Hrc). lia.
Qed.

End Cells.

(** ** Composition: the 2x2 scenario *)

Section Scenario.

Local Open Scope res_scope.

Lemma image_open_some fs path :
  is_Some (image_size fs path) -> exists wh, image_open fs path = Ok wh.
Proof. intros [wh H]. exists wh. unfold image_open. rewrite H. reflexivity. Qed.

(** C6: four images on a square 800x800 canvas with gutter 10 and rows
    [2,2]: row height and cell width are 395, and the images, in sorted
    order, go to (0,0), (405,0), (0,405) and (405,405). *)
Theorem compose_four_on_square fs args cfg folder children a b c d prof lay :
  folder_images folder children = [a; b; c; d] ->
  Forall (fun p => is_Some (image_size fs (path_str p))) [a; b; c; d] ->
  profiles (outputs cfg) = [prof] ->
  prof_size prof = (800, 800) ->
  layouts cfg !! "square" = Some lay ->
  gutter lay = Some 10 ->
  patterns lay !! "4" = Some [2; 2] ->
  (800 - 10 * (2 - 1)) / 2 = 395
  /\ Sorted (fun x y => String.leb x y = true) [name a; name b; name c; name d]
  /\ exists path bg,
       run_compose fs args cfg folder children
       = ([Mkdir (path_join (args_out_dir args) (prof_tag prof));
           Save path
             (Composite (800, 800) bg
                [ {| paste_img := path_str a; paste_w := 395; paste_h := 395;
                     paste_x := 0; paste_y := 0 |};
                  {| paste_img := path_str b; paste_w := 395; paste_h := 395;
                     paste_x := 405; paste_y := 0 |};
                  {| paste_img := path_str c; paste_w := 395; paste_h := 395;
                     paste_x := 0; paste_y := 405 |};
                  {| paste_img := path_str d; paste_w := 395; paste_h := 395;
                     paste_x := 405; paste_y := 405 |} ])
             (Some 95)],
          Ok tt).
Proof.
  intros Himgs Hopen Hprofs Hsize Hlay Hgut Hpat. split; [reflexivity|].
  split.
  { change [name a; name b; name c; name d] with (List.map name [a; b; c; d]).
    rewrite <- Himgs, folder_images_names. apply sorted_ordered. }
  inversion Hopen as [|? ? Ha Hopen1]; subst.
  inversion Hopen1 as [|? ? Hb Hopen2]; subst.
  inversion Hopen2 as [|? ? Hc Hopen3]; subst.
  inversion Hopen3 as [|? ? Hd _]; subst.
  apply image_open_some in Ha as (wa & Ha), Hb as (wb & Hb),
                           Hc as (wc & Hc), Hd as (wd & Hd).
  unfold run_compose. rewrite Himgs, Hprofs. cbn [length Nat.eqb for_each].
  unfold compose_profile. rewrite Hsize.
  change (orient_of 800 800) with "square"%string.
  unfold lookup_key. rewrite Hlay. cbn [lift io_bind].
  change (pretty (length [a; b; c; d])) with "4"%string. rewrite Hpat, Hgut.
  cbn [lift io_bind emit default].
  unfold paste_rows, paste_cols, floordiv. cbn [length range].
  change (range 2) with [0; 1].
  cbn [lookup list_lookup rbind Z.eqb Z.of_nat Pos.of_succ_nat Pos.succ].
  simpl. rewrite Ha. simpl. rewrite Hb. simpl. rewrite Hc. simpl. rewrite Hd. simpl.
  eexists _, _. reflexivity.
Qed.

End Scenario.

(** ** Loops that raise *)

Section Loops.

Local Open Scope io_scope.

Lemma raised_true {A : Type} (m : io A) :
  raised m = true <-> exists evs e, m = (evs, Raise e).
Proof.
  destruct m as [evs [a|e]]; unfold raised; simpl; split.
  - discriminate.
  - intros (? & ? & [=]).
  - eauto.
  - reflexivity.
Qed.

Lemma io_bind_raised {A B : Type} (m : io A) (k : A -> io B) :
  raised m = true -> io_bind m k = (fst m, Raise match snd m with
                                                 | Raise e => e
                                                 | Ok _ => ValueError
                                                 end).
Proof. destruct m as [evs [a|e]]; [discriminate | reflexivity]. Qed.

Lemma raised_io_bind_l {A B : Type} (m : io A) (k : A -> io B) :
  raised m = true -> raised (io_bind m k) = true.
Proof. intros H. rewrite (io_bind_raised _ _ H). reflexivity. Qed.

Lemma raised_io_bind_r {A B : Type} (m : io A) (k : A -> io B) :
  (forall a, raised (k a) = true) -> raised (io_bind m k) = true.
Proof.
  intros H. destruct m as [evs [a|e]]; [|reflexivity].
  specialize (H a). unfold io_bind. destruct (k a) as [evs' [b|e]]; [discriminate | reflexivity].
Qed.

(** Once the body raises on [x], nothing after [x] is run. *)
Lemma for_each_stops {A : Type} (body : A -> io unit) (x : A) (before after : list A) :
  raised (body x) = true ->
  for_each (before ++ x :: after) body = for_each (before ++ [x]) body
  /\ raised (for_each (before ++ [x]) body) = true.
Proof.
  intros Hx. induction before as [|y before [IH1 IH2]]; simpl.
  - rewrite !(io_bind_raised _ _ Hx). split; reflexivity.
  - rewrite IH1. split; [reflexivity|].
    apply raised_io_bind_r. intros _. exact IH2.
Qed.

(** A body that raises before any effect adds no event. *)
Lemma for_each_silent_last {A : Type} (body : A -> io unit) (x : A) (before : list A) :
  raised (body x) = true -> fst (body x) = [] ->
  fst (for_each (before ++ [x]) body) = fst (for_each before body).
Proof.
  intros Hx Hev. induction before as [|y before IH]; simpl.
  - rewrite (io_bind_raised _ _ Hx), Hev. reflexivity.
  - destruct (body y) as [evs [[]|e]]; [|reflexivity]. unfold io_bind.
    destruct (for_each (before ++ [x]) body) as [e1 r1],
             (for_each before body) as [e2 r2].
    simpl in IH. subst. reflexivity.
Qed.

Lemma fst_io_bind_Forall {A B : Type} (P : event -> Prop) (m : io A) (k : A -> io B) :
  Forall P (fst m) -> (forall a, Forall P (fst (k a))) -> Forall P (fst (io_bind m k)).
Proof.
  intros Hm Hk. destruct m as [evs [a|e]]; [|exact Hm].
  specialize (Hk a). unfold io_bind. destruct (k a) as [evs' r]. simpl in *.
  apply Forall_app. split; assumption.
Qed.

Lemma for_each_Forall {A : Type} (P : event -> Prop) (body : A -> io unit) (l : list A) :
  (forall x, Forall P (fst (body x))) -> Forall P (fst (for_each l body)).
Proof.
  intros Hb. induction l as [|x l IH]; simpl; [constructor|].
  apply fst_io_bind_Forall; [apply Hb | intros _; exact IH].
Qed.

Lemma lift_Forall {A : Type} (P : event -> Prop) (r : result A) : Forall P (fst (lift r)).
Proof. constructor. Qed.




(** The records of a loop are those its body owes item by item, up to where
    the loop stopped; all of them when it finished. *)
Lemma for_each_records {A R : Type} (rec : event -> option R)
    (body : A -> io unit) (due : A -> list R) :
  (forall x, exists rest,
      due x = omap rec (fst (body x)) ++ rest
      /\ (raised (body x) = false -> rest = [])) ->
  forall l, exists rest,
      List.flat_map due l = omap rec (fst (for_each l body)) ++ rest
      /\ (raised (for_each l body) = false -> rest = []).
Proof.
  intros Hb. induction l as [|x l (rest & IH & IH0)]; cbn [for_each List.flat_map].
  - exists []. split; reflexivity.
  - destruct (Hb x) as (rx & Hx & Hx0).
    destruct (body x) as [evs [[]|e]] eqn:Ebody; cbn [io_bind].
    + specialize (Hx0 eq_refl). subst rx. rewrite app_nil_r in Hx. cbn [fst] in Hx.
      destruct (for_each l body) as [evs' r'] eqn:El. cbn [fst] in *.
      exists rest. split.
      * rewrite omap_app, Hx, IH, app_assoc. reflexivity.
      * exact IH0.
    + exists (rx ++ List.flat_map due l). split.
      * cbn [fst] in *. rewrite Hx, app_assoc. reflexivity.
      * discriminate.
Qed.

Lemma flat_map_singleton {A B : Type} (f : A -> B) (l : list A) :
  List.flat_map (fun x => [f x]) l = List.map f l.
Proof. induction l as [|x l IH]; [reflexivity|]. cbn. rewrite IH. reflexivity. Qed.

End Loops.

(** ** Errors in the batch and in the composition *)

Section Errors.

Local Open Scope io_scope.

Lemma io_bind_raised_unit (m : io unit) (k : unit -> io unit) :
  raised m = true -> io_bind m k = m.
Proof. destruct m as [evs [a|e]]; [discriminate | reflexivity]. Qed.

Lemma batch_file_unreadable fs args cfg src :
  image_size fs (path_str src) = None ->
  batch_file fs args cfg src = ([], Raise (UnidentifiedImageError (path_str src))).
Proof. intros H. unfold batch_file, image_open. rewrite H. reflexivity. Qed.

(** C8, as stated, fails: the image after an unreadable one is not
    processed, though alone it is. *)
Lemma unreadable_image_stops_later_images :
  let fs := world_without "input/bad.jpg" in
  run_batch fs default_args grid_cfg [in_input "bad.jpg"; in_input "good.jpg"]
  = ([], Raise (UnidentifiedImageError "input/bad.jpg"))
  /\ run_batch fs default_args grid_cfg [in_input "good.jpg"]
     = ([Mkdir "output/sq";
         Save "output/sq/good_sq800x800.jpg"
           (Cropped "input/good.jpg" None (130, 30, 870, 770) (800, 800))
           (Some 40)],
        Ok tt).
Proof. vm_compute. split; reflexivity. Qed.

(** C8 (amended): an unreadable source image raises at [Image.open] and
    nothing catches it: no event is added for that image, the images after
    it in the batch are not processed, the run ends with the exception, and
    no folder is composed; what was written for the images before it stays. *)
Theorem unreadable_image_aborts_batch fs args cfg before bad after :
  image_size fs (path_str bad) = None ->
  run_batch fs args cfg (before ++ bad :: after)
  = run_batch fs args cfg (before ++ [bad])
  /\ raised (run_batch fs args cfg (before ++ [bad])) = true
  /\ fst (run_batch fs args cfg (before ++ [bad]))
     = fst (run_batch fs args cfg before)
  /\ forall root,
       singles_of (args_input_dir args) root = before ++ bad :: after ->
       process fs args cfg root = run_batch fs args cfg (before ++ [bad]).
Proof.
  intros Hbad. pose proof (batch_file_unreadable fs args cfg bad Hbad) as Hb.
  assert (Hr : raised (batch_file fs args cfg bad) = true) by (rewrite Hb; reflexivity).
  destruct (for_each_stops (batch_file fs args cfg) bad before after Hr) as [Hstop Hraised].
  unfold run_batch. repeat split.
  - exact Hstop.
  - exact Hraised.
  - apply for_each_silent_last; [exact Hr | rewrite Hb; reflexivity].
  - intros root Hroot. unfold process. rewrite Hroot.
    destruct (before ++ bad :: after) as [|x l] eqn:E.
    + destruct before; discriminate.
    + cbv iota. unfold run_batch. rewrite Hstop.
      apply io_bind_raised_unit, Hraised.
Qed.

Lemma unreadable_image_aborts_batch_witness :
  let fs := world_without "input/bad.jpg" in
  let before := [in_input "good.jpg"] in
  let bad := in_input "bad.jpg" in
  let after := [in_input "late.png"] in
  run_batch fs default_args grid_cfg (before ++ bad :: after)
  = run_batch fs default_args grid_cfg (before ++ [bad])
  /\ raised (run_batch fs default_args grid_cfg (before ++ [bad])) = true
  /\ fst (run_batch fs default_args grid_cfg (before ++ [bad]))
     = fst (run_batch fs default_args grid_cfg before)
  /\ forall root,
       singles_of (args_input_dir default_args) root = before ++ bad :: after ->
       process fs default_args grid_cfg root
       = run_batch fs default_args grid_cfg (before ++ [bad]).
Proof.
  intros fs before bad after.
  apply (unreadable_image_aborts_batch fs default_args grid_cfg before bad after).
  reflexivity.
Defined.



Lemma singles_of_app dir r1 r2 :
  singles_of dir (r1 ++ r2) = singles_of dir r1 ++ singles_of dir r2.
Proof. apply flat_map_app. Qed.

Lemma folders_of_app dir r1 r2 :
  folders_of dir (r1 ++ r2) = folders_of dir r1 ++ folders_of dir r2.
Proof. apply flat_map_app. Qed.


Lemma folders_of_no_folders dir r :
  folders_of dir (List.filter (fun item => negb (is_folder item)) r) = [].
Proof. induction r as [|[nm|nm ch|nm] r IH]; simpl; assumption || reflexivity. Qed.


(** [process] is the batch on the image files, then the folders in turn. *)
Lemma process_batch_then_compose fs args cfg root :
  process fs args cfg root
  = (run_batch fs args cfg (singles_of (args_input_dir args) root) ;;;
     compose_all fs args cfg (folders_of (args_input_dir args) root)).
Proof.
  unfold process. destruct (singles_of (args_input_dir args) root); reflexivity.
Qed.


End Errors.

(** ** Witnesses of the composition theorems *)

Section CompositionWitnesses.

Example folder_images_sample :
  folder_images (in_input "b") four_jpgs
  = [ {| parent := "input/b"; name := "a.jpg" |};
      {| parent := "input/b"; name := "b.jpg" |};
      {| parent := "input/b"; name := "c.jpg" |};
      {| parent := "input/b"; name := "d.jpg" |} ].
Proof. vm_compute. reflexivity. Qed.

Lemma cell_partition_slack_witness :
  let num_rows := Z.of_nat (length [2; 2]) in
  let rh := (800 - 10 * (num_rows - 1)) / num_rows in
  List.map cell_of four_pastes = grid_cells 800 800 10 [2; 2]
  /\ length four_pastes = images_needed [2; 2]
  /\ four_pastes <> []
  /\ Forall (fun p => paste_h p = rh) four_pastes
  /\ 0 <= 800 - (num_rows * rh + 10 * (num_rows - 1)) <= num_rows - 1
  /\ Forall (fun p => exists rcount, In rcount [2; 2]
               /\ paste_w p = (800 - 10 * (rcount - 1)) / rcount) four_pastes
  /\ Forall (fun rcount =>
       let cw_cell := (800 - 10 * (rcount - 1)) / rcount in
       0 <= 800 - (rcount * cw_cell + 10 * (rcount - 1)) <= rcount - 1) [2; 2].
Proof.
  apply (cell_partition_slack (all_readable)
           (folder_images (in_input "b") four_jpgs) 800 800 10 [2; 2] four_pastes).
  - discriminate.
  - repeat constructor.
  - simpl. lia.
  - vm_compute. reflexivity.
Defined.

Lemma compose_four_on_square_witness :
  (800 - 10 * (2 - 1)) / 2 = 395
  /\ Sorted (fun x y => String.leb x y = true) ["a.jpg"; "b.jpg"; "c.jpg"; "d.jpg"]%string
  /\ exists path bg,
       run_compose (all_readable) default_args grid_cfg (in_input "b") four_jpgs
       = ([Mkdir (path_join (args_out_dir default_args) (prof_tag square_profile));
           Save path
             (Composite (800, 800) bg
                [ {| paste_img := "input/b/a.jpg"; paste_w := 395; paste_h := 395;
                     paste_x := 0; paste_y := 0 |};
                  {| paste_img := "input/b/b.jpg"; paste_w := 395; paste_h := 395;
                     paste_x := 405; paste_y := 0 |};
                  {| paste_img := "input/b/c.jpg"; paste_w := 395; paste_h := 395;
                     paste_x := 0; paste_y := 405 |};
                  {| paste_img := "input/b/d.jpg"; paste_w := 395; paste_h := 395;
                     paste_x := 405; paste_y := 405 |} ])
             (Some 95)],
          Ok tt).
Proof.
  apply (compose_four_on_square (all_readable) default_args grid_cfg
           (in_input "b") four_jpgs
           {| parent := "input/b"; name := "a.jpg" |}
           {| parent := "input/b"; name := "b.jpg" |}
           {| parent := "input/b"; name := "c.jpg" |}
           {| parent := "input/b"; name := "d.jpg" |}
           square_profile grid_layout).
  - vm_compute. reflexivity.
  - repeat constructor; eexists; vm_compute; reflexivity.
  - reflexivity.
  - reflexivity.
  - vm_compute. reflexivity.
  - reflexivity.
  - vm_compute. reflexivity.
Defined.


(** The run of the amended C7 on a listing with the folder first: the crop
    of the image file listed after it is written, then the [KeyError]. *)
Example compose_error_after_batch :
  process all_readable default_args grid_cfg
    [Folder "a" three_jpgs; File "good.jpg"; Folder "b" four_jpgs]
  = ([Mkdir "output/sq";
      Save "output/sq/good_sq800x800.jpg"
        (Cropped "input/good.jpg" None (130, 30, 870, 770) (800, 800))
        (Some 40)],
     Raise (KeyError "3")).
Proof. vm_compute. reflexivity. Qed.

End CompositionWitnesses.

(** ** Saved quality *)

Section Quality.

Local Open Scope io_scope.

Lemma emit_Forall (P : event -> Prop) ev : P ev -> Forall P (fst (emit ev)).
Proof. intros H. repeat constructor. exact H. Qed.

Lemma io_ret_Forall {A : Type} (P : event -> Prop) (a : A) : Forall P (fst (io_ret a)).
Proof. constructor. Qed.

(** What one profile of one image writes: a directory and one crop, saved
    with [args.pad] as its quality; nothing when it raises. *)
Lemma batch_profile_events args cfg src w h bbox drawn prof :
  match batch_profile args cfg src w h bbox drawn prof with
  | (evs, Ok _) =>
      exists dir path box,
        evs = [Mkdir dir;
               Save path (Cropped (path_str src) drawn box (prof_size prof))
                    (Some (args_pad args))]
  | (evs, Raise _) => evs = []
  end.
Proof.
  unfold batch_profile. destruct (prof_size prof) as [tw th].
  destruct (ratio_of tw th) as [ratio|e]; simpl; [|reflexivity].
  destruct bbox as [[[l t] r] b].
  destruct (expand_aspect l t r b ratio w h _) as [box|e]; simpl; [|reflexivity].
  eexists _, _, _. reflexivity.
Qed.

Lemma batch_profile_quality args cfg src w h bbox drawn prof :
  Forall (crop_saved_with (args_pad args))
         (fst (batch_profile args cfg src w h bbox drawn prof)).
Proof.
  pose proof (batch_profile_events args cfg src w h bbox drawn prof) as H.
  destruct (batch_profile args cfg src w h bbox drawn prof) as [evs [[]|e]].
  - destruct H as (dir & path & box & ->). repeat constructor.
  - subst evs. constructor.
Qed.

Lemma compose_profile_quality fs args cfg folder imgs prof :
  Forall (composite_saved_with 95)
         (fst (compose_profile fs args cfg folder imgs prof)).
Proof.
  unfold compose_profile. destruct (prof_size prof) as [cw ch].
  apply fst_io_bind_Forall; [apply lift_Forall | intros lay].
  apply fst_io_bind_Forall; [apply lift_Forall | intros rows].
  apply fst_io_bind_Forall; [apply emit_Forall; exact I | intros _].
  apply fst_io_bind_Forall; [apply lift_Forall | intros pastes].
  apply emit_Forall. reflexivity.
Qed.

(** The crop one profile of one image records: none when it raises. *)
Lemma batch_profile_crops args cfg src w h bbox drawn prof :
  omap crop_record (fst (batch_profile args cfg src w h bbox drawn prof))
  = if raised (batch_profile args cfg src w h bbox drawn prof) then []
    else [(artifact_path args cfg src prof, path_str src, prof_size prof,
           Some (args_pad args))].
Proof.
  unfold batch_profile, artifact_path. destruct (prof_size prof) as [tw th].
  destruct (ratio_of tw th) as [ratio|e]; [|reflexivity].
  destruct bbox as [[[l t] r] b]. cbn [lift io_bind app].
  destruct (expand_aspect l t r b ratio w h _) as [box|e]; reflexivity.
Qed.

Lemma batch_file_crops fs args cfg src :
  exists rest,
    List.map (fun prof => (artifact_path args cfg src prof, path_str src,
                           prof_size prof, Some (args_pad args)))
             (profiles (outputs cfg))
    = omap crop_record (fst (batch_file fs args cfg src)) ++ rest
    /\ (raised (batch_file fs args cfg src) = false -> rest = []).
Proof.
  unfold batch_file, image_open.
  destruct (image_size fs (path_str src)) as [[w h]|].
  2:{ eexists. split; [reflexivity | discriminate]. }
  cbn [lift io_bind app].
  set (bbox0 := match get_bbox fs args src with
                | Some bx => bx
                | None => center_square w h (args_pad args)
                end).
  destruct bbox0 as [[[l0 t0] r0] b0].
  set (bbox := if area_rejected args ((r0 - l0) * (b0 - t0))
               then center_square w h (args_pad args) else (l0, t0, r0, b0)).
  set (drawn := if args_debug args then Some bbox else None).
  destruct (for_each_records crop_record
              (batch_profile args cfg src w h bbox drawn)
              (fun prof => [(artifact_path args cfg src prof, path_str src,
                             prof_size prof, Some (args_pad args))]))
    with (l := profiles (outputs cfg)) as (rest & Hrest & Hdone).
  { intros prof. rewrite batch_profile_crops.
    destruct (raised (batch_profile args cfg src w h bbox drawn prof)).
    - eexists. split; [reflexivity | discriminate].
    - exists []. split; reflexivity. }
  rewrite flat_map_singleton in Hrest.
  exists rest.
  destruct (for_each (profiles (outputs cfg))
              (batch_profile args cfg src w h bbox drawn)) as [evs r] eqn:Eloop.
  cbn [fst] in Hrest.
  destruct (args_debug args); cbn [emit io_ret io_bind app fst omap];
    (split; [exact Hrest | exact Hdone]).
Qed.

Lemma compose_profile_composites fs args cfg folder imgs prof :
  omap composite_record (fst (compose_profile fs args cfg folder imgs prof))
  = if raised (compose_profile fs args cfg folder imgs prof) then []
    else [(composite_path args cfg folder prof, prof_size prof, Some 95)].
Proof.
  unfold compose_profile, composite_path. destruct (prof_size prof) as [cw ch].
  destruct (lookup_key (layouts cfg) (orient_of cw ch)) as [lay|e]; [|reflexivity].
  cbn [lift io_bind app].
  destruct (lookup_key (patterns lay) (pretty (length imgs))) as [rows|e];
    [|reflexivity].
  cbn [lift io_bind app emit].
  destruct (paste_rows fs imgs cw ch _ rows rows 0 0) as [pastes|e]; reflexivity.
Qed.

(** C9: in single-image mode the crops saved are, image by image and
    profile by profile, the artifacts of the profiles, each saved with the
    quality set to [args.pad], whatever pad the profile or the configuration
    gives: all of them when the batch finishes, those up to the exception
    otherwise; [args.pad] is 40 by default.  In compose mode the files saved
    for a folder with images are the composites of the profiles, each saved
    with quality 95, all of them when the folder finishes.  Nothing else is
    saved as a crop or by compose mode. *)
Theorem saved_quality fs args cfg files folder children :
  (exists rest,
     crops_due args cfg (args_pad args) files
     = omap crop_record (fst (run_batch fs args cfg files)) ++ rest
     /\ (raised (run_batch fs args cfg files) = false -> rest = []))
  /\ Forall (crop_saved_with (args_pad args)) (fst (run_batch fs args cfg files))
  /\ (exists rest,
        composites_due args cfg 95 folder children
        = omap composite_record (fst (run_compose fs args cfg folder children))
          ++ rest
        /\ (raised (run_compose fs args cfg folder children) = false -> rest = []))
  /\ Forall (composite_saved_with 95) (fst (run_compose fs args cfg folder children))
  /\ args_pad default_args = 40.
Proof.
  split; [|split; [|split; [|split]]].
  - unfold run_batch, crops_due.
    apply (for_each_records crop_record (batch_file fs args cfg)).
    intros src. apply batch_file_crops.
  - unfold run_batch. apply for_each_Forall. intros src. unfold batch_file.
    apply fst_io_bind_Forall; [apply lift_Forall | intros [w h]].
    destruct (get_bbox fs args src) as [[[[l0 t0] r0] b0]|];
      [|destruct (center_square w h (args_pad args)) as [[[l0 t0] r0] b0]];
      (apply fst_io_bind_Forall;
       [ destruct (args_debug args); [apply emit_Forall; exact I | apply io_ret_Forall]
       | intros _; apply for_each_Forall; intros prof; apply batch_profile_quality ]).
  - unfold run_compose, composites_due.
    destruct (folder_images folder children) as [|img imgs] eqn:Eimgs.
    + exists []. split; reflexivity.
    + cbn [length Nat.eqb].
      destruct (for_each_records composite_record
                  (compose_profile fs args cfg folder (img :: imgs))
                  (fun prof => [(composite_path args cfg folder prof,
                                 prof_size prof, Some 95)]))
        with (l := profiles (outputs cfg)) as (rest & Hrest & Hdone).
      { intros prof. rewrite compose_profile_composites.
        destruct (raised (compose_profile fs args cfg folder (img :: imgs) prof)).
        - eexists. split; [reflexivity | discriminate].
        - exists []. split; reflexivity. }
      rewrite flat_map_singleton in Hrest. exists rest. split; assumption.
  - unfold run_compose. destruct (_ =? _)%nat; [apply io_ret_Forall|].
    apply for_each_Forall. intros prof. apply compose_profile_quality.
  - reflexivity.
Qed.

(** Two images under two profiles with pads of their own: four crops, each
    saved with quality 40. *)
Example saved_quality_two_by_two :
  omap crop_record
    (fst (run_batch all_readable default_args loose_cfg
            [in_input "a.jpg"; in_input "b.png"]))
  = [ ("output/wide/a_wide900x700.jpg", "input/a.jpg", (900, 700), Some 40);
      ("output/sq/a_sq800x800.jpg", "input/a.jpg", (800, 800), Some 40);
      ("output/wide/b_wide900x700.png", "input/b.png", (900, 700), Some 40);
      ("output/sq/b_sq800x800.png", "input/b.png", (800, 800), Some 40) ]%string
  /\ crops_due default_args loose_cfg 40 [in_input "a.jpg"; in_input "b.png"]
     = omap crop_record
         (fst (run_batch all_readable default_args loose_cfg
                 [in_input "a.jpg"; in_input "b.png"])).
Proof. vm_compute. split; reflexivity. Qed.

(** The profile's pad 10 sets the crop box; the quality is [args.pad]. *)
Example quality_is_not_profile_pad :
  run_batch (all_readable) default_args grid_cfg [in_input "good.jpg"]
  = ([Mkdir "output/sq";
      Save "output/sq/good_sq800x800.jpg"
        (Cropped "input/good.jpg" None (130, 30, 870, 770) (800, 800))
        (Some 40)],
     Ok tt).
Proof. vm_compute. reflexivity. Qed.

End Quality.

(** ** Which files each mode takes *)

Section Extensions.

Lemma ends_with_app suf s :
  ends_with suf s = true -> exists pre, s = (pre +:+ suf)%string.
Proof.
  induction s as [|a s IH]; cbn [ends_with]; rewrite orb_true_iff.
  - intros [H|H]; [|discriminate]. apply String.eqb_eq in H. subst suf.
    exists EmptyString. reflexivity.
  - intros [H|H].
    + apply String.eqb_eq in H. subst suf. exists EmptyString. reflexivity.
    + destruct (IH H) as [pre ->]. exists (String a pre). reflexivity.
Qed.

Lemma rfind_app c s1 s2 j :
  rfind c s2 = Some j ->
  rfind c (s1 +:+ s2) = Some (String.length s1 + j)%nat.
Proof.
  intros H. induction s1 as [|a s1 IH]; simpl; [exact H|].
  rewrite IH. reflexivity.
Qed.

Lemma drop_chars_app s1 s2 : drop_chars (String.length s1) (s1 +:+ s2) = s2.
Proof. induction s1 as [|a s1 IH]; simpl; [destruct s2; reflexivity | exact IH]. Qed.

Lemma string_length_app s1 s2 :
  String.length (s1 +:+ s2) = (String.length s1 + String.length s2)%nat.
Proof. induction s1 as [|a s1 IH]; simpl; [reflexivity | rewrite IH; reflexivity]. Qed.

(** A name matched by [*.jpg] has the suffix [.jpg], or none when the
    name is [.jpg] itself. *)
Lemma jpg_suffix nm :
  ends_with ".jpg" nm = true -> suffix nm = ".jpg"%string \/ suffix nm = EmptyString.
Proof.
  intros H. destruct (ends_with_app _ _ H) as [pre ->]. unfold suffix.
  rewrite (rfind_app "." pre ".jpg" 0) by reflexivity.
  rewrite string_length_app, Nat.add_0_r.
  destruct ((0 <? String.length pre) && _)%nat; [left | right; reflexivity].
  apply drop_chars_app.
Qed.

Lemma is_image_name_spec nm :
  is_image_name nm = true
  <-> In (lower (suffix nm)) [".jpg"; ".jpeg"; ".png"]%string.
Proof.
  unfold is_image_name. rewrite existsb_exists. split.
  - intros (x & Hin & Heq). apply String.eqb_eq in Heq. congruence.
  - intros Hin. exists (lower (suffix nm)). split; [exact Hin | apply String.eqb_refl].
Qed.

(** C10: [run_compose] collects, and counts, exactly the children of the
    folder whose name ends in a lowercase [.jpg]; a name whose suffix is
    [.jpeg], [.png] or [.jpg] in another case is accepted by the
    dispatcher's test on direct children, and is not among the images of
    the composition. *)
Theorem compose_takes_lowercase_jpg_only folder children nm :
  In (lower (suffix nm)) [".jpg"; ".jpeg"; ".png"]%string ->
  suffix nm <> ".jpg"%string ->
  is_image_name nm = true
  /\ ends_with ".jpg" nm = false
  /\ ~ In nm (List.map name (folder_images folder children))
  /\ (forall p, In p (folder_images folder children)
                <-> parent p = path_str folder /\ In (name p) children
                    /\ ends_with ".jpg" (name p) = true)
  /\ List.length (folder_images folder children)
     = List.length (List.filter (ends_with ".jpg") children).
Proof.
  intros Hacc Hsuf.
  assert (Hno : ends_with ".jpg" nm = false).
  { destruct (ends_with ".jpg" nm) eqn:E; [|reflexivity].
    destruct (jpg_suffix nm E) as [H|H]; [contradiction|].
    rewrite H in Hacc. simpl in Hacc.
    destruct Hacc as [|[|[|[]]]]; discriminate. }
  split; [apply is_image_name_spec, Hacc|]. split; [exact Hno|]. split; [|split].
  - rewrite in_map_iff. intros (p & <- & Hp).
    apply in_folder_images in Hp as (_ & _ & Hp). congruence.
  - apply in_folder_images.
  - unfold folder_images, glob_jpg. rewrite length_map.
    apply Permutation_length, sorted_perm.
Qed.

Lemma compose_takes_lowercase_jpg_only_witness :
  is_image_name "e.JPG" = true
  /\ ends_with ".jpg" "e.JPG" = false
  /\ ~ In "e.JPG"%string (List.map name (folder_images (in_input "b") four_jpgs))
  /\ (forall p, In p (folder_images (in_input "b") four_jpgs)
                <-> parent p = path_str (in_input "b") /\ In (name p) four_jpgs
                    /\ ends_with ".jpg" (name p) = true)
  /\ List.length (folder_images (in_input "b") four_jpgs)
     = List.length (List.filter (ends_with ".jpg") four_jpgs).
Proof.
  apply (compose_takes_lowercase_jpg_only (in_input "b") four_jpgs "e.JPG").
  - vm_compute. left. reflexivity.
  - vm_compute. discriminate.
Defined.

(** The same files seen by the two modes. *)
Example extensions_by_mode :
  List.map is_image_name four_jpgs = [true; true; true; true; true; true; true]
  /\ List.map (ends_with ".jpg") four_jpgs
     = [true; true; false; true; false; true; false].
Proof. vm_compute. split; reflexivity. Qed.

End Extensions.

(** ** More on the geometry *)

Section GeometryMore.

Local Open Scope res_scope.

(** X1: the square of [center_square] keeps a margin of at least [pad] on every
    side, of exactly [pad] on the shorter axis, and sits in the middle: the
    right and bottom margins exceed the left and top ones by at most one
    pixel.  No condition on the arguments. *)
Theorem center_square_margins w h pad :
  let '(l, t, r, b) := center_square w h pad in
  pad <= l /\ pad <= t /\ r <= w - pad /\ b <= h - pad
  /\ Z.min l t = pad
  /\ 0 <= (w - r) - l <= 1 /\ 0 <= (h - b) - t <= 1.
Proof. unfold center_square. div_lia. Qed.

(** X2: before the clamp, [expand_aspect] keeps the middle of the box on both
    axes: what is added on the left is added on the right, what is added
    above is added below, odd differences included. *)
Theorem expand_aspect_keeps_center l t r b ratio w h pad out :
  expand_aspect l t r b ratio w h pad = Ok out ->
  exists g,
    grow l t r b ratio = Ok g
    /\ out = clamp (add_pad g pad) w h
    /\ (let '(l1, t1, r1, b1) := add_pad g pad in
        l1 + r1 = l + r /\ t1 + b1 = t + b)
    /\ (within (add_pad g pad) w h = true ->
        let '(l2, t2, r2, b2) := out in l2 + r2 = l + r /\ t2 + b2 = t + b).
Proof.
  intros H. unfold expand_aspect in H. apply rbind_ok in H as (g & Hg & H).
  injection H as <-. exists g. split; [exact Hg|]. split; [reflexivity|].
  assert (Hc : let '(l1, t1, r1, b1) := add_pad g pad in
               l1 + r1 = l + r /\ t1 + b1 = t + b).
  { destruct (grow_cases _ _ _ _ _ _ Hg) as [(_ & n & _ & ->)|(_ & n & _ & ->)];
      cbn [add_pad]; lia. }
  split; [exact Hc|]. intros Hin. rewrite (clamp_within_id _ _ _ Hin). exact Hc.
Qed.

Lemma expand_aspect_keeps_center_witness :
  exists g,
    grow 400 300 600 500 (S754_finite false 6755399441055744 (-53)) = Ok g
    /\ (360, 227, 640, 573) = clamp (add_pad g 40) 1000 800
    /\ (let '(l1, t1, r1, b1) := add_pad g 40 in
        l1 + r1 = 400 + 600 /\ t1 + b1 = 300 + 500)
    /\ (within (add_pad g 40) 1000 800 = true ->
        let '(l2, t2, r2, b2) := (360, 227, 640, 573) in
        l2 + r2 = 400 + 600 /\ t2 + b2 = 300 + 500).
Proof.
  apply (expand_aspect_keeps_center 400 300 600 500
           (S754_finite false 6755399441055744 (-53)) 1000 800 40).
  vm_compute. reflexivity.
Defined.

(** X3: a larger pad never loses a pixel: the box returned for the larger pad
    contains the box returned for the smaller one. *)
Theorem expand_aspect_pad_monotone l t r b ratio w h pad1 pad2 out1 out2 :
  pad1 <= pad2 ->
  expand_aspect l t r b ratio w h pad1 = Ok out1 ->
  expand_aspect l t r b ratio w h pad2 = Ok out2 ->
  contains out2 out1 = true.
Proof.
  intros Hp H1 H2. unfold expand_aspect in *.
  apply rbind_ok in H1 as ([[[l1 t1] r1] b1] & He & H1). rewrite He in H2.
  cbn [rbind] in H2. injection H1 as <-. injection H2 as <-.
  unfold add_pad, clamp. rewrite contains_spec. lia.
Qed.

Lemma expand_aspect_pad_monotone_witness :
  contains (100, 0, 900, 800) (130, 0, 870, 800) = true.
Proof.
  apply (expand_aspect_pad_monotone 140 40 860 760
           (S754_finite false 6755399441055744 (-53)) 1000 800 10 40);
    [lia | vm_compute; reflexivity | vm_compute; reflexivity].
Defined.

(** A returned box always lies in the image rectangle. *)
Lemma expand_aspect_within l t r b ratio w h pad out :
  expand_aspect l t r b ratio w h pad = Ok out -> within out w h = true.
Proof.
  intros H. unfold expand_aspect in H.
  apply rbind_ok in H as ([[[l1 t1] r1] b1] & _ & H). injection H as <-.
  unfold add_pad, clamp. rewrite within_spec. lia.
Qed.

End GeometryMore.

(** ** The detector's largest box *)

Section Largest.

Import Detect.

Local Open Scope res_scope.

Ltac key_cases :=
  repeat match goal with
         | s : bool |- _ => destruct s
         | |- context [Z.compare ?a ?b] => destruct (Z.compare_spec a b)
         | |- context [Pos.compare_cont Eq ?a ?b] =>
             change (Pos.compare_cont Eq a b) with (Pos.compare a b);
             destruct (Pos.compare_spec a b)
         end.

Lemma SFltb_key x y :
  is_nan x = false -> is_nan y = false ->
  (SFltb x y = true <-> klt (fkey x) (fkey y)).
Proof.
  intros Hx Hy. destruct x as [sx|sx| |sx mx ex], y as [sy|sy| |sy my ey];
    try discriminate; unfold SFltb, SFcompare, klt, fkey; key_cases;
    cbn [CompOpp]; split; intros Hgoal; try discriminate; try reflexivity; try lia.
Qed.

Lemma SFleb_key x y :
  is_nan x = false -> is_nan y = false ->
  (SFleb x y = true <-> kle (fkey x) (fkey y)).
Proof.
  intros Hx Hy. destruct x as [sx|sx| |sx mx ex], y as [sy|sy| |sy my ey];
    try discriminate; unfold SFleb, SFcompare, kle, klt, fkey; key_cases;
    cbn [CompOpp]; split; intros Hgoal; try discriminate; try reflexivity;
    try (right; reflexivity); try (left; lia);
    try (right; f_equal; [f_equal|]; lia);
    try (destruct Hgoal as [Hgoal|Hgoal]; [lia | injection Hgoal; lia]).
Qed.

Lemma klt_trans a b c : klt a b -> klt b c -> klt a c.
Proof. destruct a as [[a1 a2] a3], b as [[b1 b2] b3], c as [[c1 c2] c3]. unfold klt. lia. Qed.

Lemma kle_klt_trans a b c : kle a b -> klt b c -> klt a c.
Proof. intros [H| ->]; [apply klt_trans, H | trivial]. Qed.

Lemma klt_kle a b : klt a b -> kle a b.
Proof. left. assumption. Qed.

Lemma kle_refl a : kle a a.
Proof. right. reflexivity. Qed.

Lemma not_kle_klt a b : ~ kle a b -> klt b a.
Proof.
  destruct a as [[a1 a2] a3], b as [[b1 b2] b3]. unfold kle, klt. intros H.
  assert (Hne : ~ (a1 = b1 /\ a2 = b2 /\ a3 = b3))
    by (intros (-> & -> & ->); apply H; right; reflexivity).
  lia.
Qed.

(** The scan returns either the running maximum, which then bounds the
    rest, or the position of the first value that nothing after it exceeds
    and everything before it stays strictly below. *)
Lemma argmax_from_spec xs :
  Forall (fun x => is_nan x = false) xs ->
  forall mp best i,
    is_nan mp = false ->
    (argmax_from mp best i xs = best
     /\ Forall (fun x => kle (fkey x) (fkey mp)) xs)
    \/
    (exists j m,
        argmax_from mp best i xs = (i + j)%nat
        /\ xs !! j = Some m
        /\ klt (fkey mp) (fkey m)
        /\ Forall (fun x => kle (fkey x) (fkey m)) xs
        /\ Forall (fun x => klt (fkey x) (fkey m)) (take j xs)).
Proof.
  induction 1 as [|x xs Hx Hxs IH]; intros mp best i Hmp; cbn [argmax_from].
  - left. split; [reflexivity | constructor].
  - destruct (SFleb x mp) eqn:Hle.
    + apply SFleb_key in Hle; [|assumption..].
      destruct (IH mp best (S i) Hmp) as [(-> & Hall)|(j & m & -> & Hj & Hlt & Hall & Hbefore)].
      * left. split; [reflexivity | constructor; assumption].
      * right. exists (S j), m. repeat split.
        -- lia.
        -- exact Hj.
        -- exact Hlt.
        -- constructor; [apply klt_kle, (kle_klt_trans _ _ _ Hle Hlt) | exact Hall].
        -- cbn [take]. constructor; [apply (kle_klt_trans _ _ _ Hle Hlt) | exact Hbefore].
    + rewrite Hx.
      assert (Hlt : klt (fkey mp) (fkey x)).
      { apply not_kle_klt. intros Hk. apply SFleb_key in Hk; [congruence | assumption..]. }
      destruct (IH x i (S i) Hx) as [(-> & Hall)|(j & m & -> & Hj & Hlt' & Hall & Hbefore)].
      * right. exists O, x. repeat split.
        -- lia.
        -- exact Hlt.
        -- constructor; [apply kle_refl | exact Hall].
        -- constructor.
      * right. exists (S j), m. repeat split.
        -- lia.
        -- exact Hj.
        -- apply (klt_trans _ _ _ Hlt Hlt').
        -- constructor; [apply klt_kle, Hlt' | exact Hall].
        -- cbn [take]. constructor; [exact Hlt' | exact Hbefore].
Qed.

(** X4: when no area is a NaN and [get_bbox_yolo] returns a box, that box is
    the integer truncation of a detected row whose float32 area no other
    row exceeds, and every row listed before it has a strictly smaller
    area: the largest detection, the first one on a tie. *)
Theorem get_bbox_yolo_largest boxes box :
  Forall (fun row => is_nan (area row) = false) boxes ->
  get_bbox_yolo boxes = Ok (Some box) ->
  exists idx row,
    boxes !! idx = Some row
    /\ int_row row = Ok box
    /\ Forall (fun row' => SFleb (area row') (area row) = true) boxes
    /\ Forall (fun row' => SFltb (area row') (area row) = true) (take idx boxes).
Proof.
  intros Hnan H. destruct boxes as [|r0 rest]; [discriminate|].
  unfold get_bbox_yolo in H. apply rbind_ok in H as (idx & Hidx & H).
  apply rbind_ok in H as (row & Hrow & H). apply rbind_ok in H as (bx & Hbx & H).
  injection H as <-.
  destruct ((r0 :: rest) !! idx) as [row'|] eqn:Hlook; [|discriminate].
  injection Hrow as ->. exists idx, row. split; [exact Hlook|]. split; [exact Hbx|].
  inversion Hnan as [|? ? Hn0 Hnrest]; subst.
  cbn [List.map argmax] in Hidx. rewrite Hn0 in Hidx. injection Hidx as <-.
  assert (Hxs : Forall (fun x => is_nan x = false) (List.map area rest)).
  { apply List.Forall_map. exact Hnrest. }
  assert (Hrow_nan : is_nan (area row) = false).
  { rewrite List.Forall_forall in Hnan. apply Hnan.
    apply list_elem_of_In, list_elem_of_lookup. eauto. }
  assert (Hback_le : forall l, Forall (fun x => is_nan (area x) = false) l ->
            Forall (fun x => kle (fkey x) (fkey (area row))) (List.map area l) ->
            Forall (fun row' => SFleb (area row') (area row) = true) l).
  { intros l Hl Hk. apply List.Forall_map in Hk.
    rewrite List.Forall_forall in *. intros x Hin.
    apply SFleb_key; [apply Hl, Hin | exact Hrow_nan | apply Hk, Hin]. }
  assert (Hback_lt : forall l, Forall (fun x => is_nan (area x) = false) l ->
            Forall (fun x => klt (fkey x) (fkey (area row))) (List.map area l) ->
            Forall (fun row' => SFltb (area row') (area row) = true) l).
  { intros l Hl Hk. apply List.Forall_map in Hk.
    rewrite List.Forall_forall in *. intros x Hin.
    apply SFltb_key; [apply Hl, Hin | exact Hrow_nan | apply Hk, Hin]. }
  destruct (argmax_from_spec _ Hxs (area r0) O 1%nat Hn0)
    as [(Hk & Hall)|(j & m & Hk & Hj & Hlt & Hall & Hbefore)];
    rewrite Hk in Hlook |- *.
  - cbn in Hlook. injection Hlook as <-. split; [|constructor].
    constructor.
    + apply SFleb_key; [assumption.. | apply kle_refl].
    + apply Hback_le; assumption.
  - change ((r0 :: rest) !! (1 + j)%nat) with (rest !! j) in Hlook.
    change (List.map area rest) with (area <$> rest) in Hj.
    rewrite list_lookup_fmap, Hlook in Hj.
    cbn in Hj. injection Hj as <-. split.
    + constructor.
      * apply SFleb_key; [assumption.. | apply klt_kle, Hlt].
      * apply Hback_le; assumption.
    + cbn [Nat.add take]. constructor.
      * apply SFltb_key; assumption.
      * apply Hback_lt.
        -- apply Forall_take. exact Hnrest.
        -- change (List.map area (take j rest)) with (area <$> take j rest).
           rewrite fmap_take. exact Hbefore.
Qed.

Lemma get_bbox_yolo_largest_witness :
  exists idx row,
    three_rows !! idx = Some row
    /\ int_row row = Ok (5, 5, 35, 25)
    /\ Forall (fun row' => SFleb (area row') (area row) = true) three_rows
    /\ Forall (fun row' => SFltb (area row') (area row) = true) (take idx three_rows).
Proof.
  apply (get_bbox_yolo_largest three_rows (5, 5, 35, 25)).
  - repeat constructor.
  - vm_compute. reflexivity.
Defined.

End Largest.

(** ** The cells of a composition *)

Section Layout.

Local Open Scope res_scope.

Lemma paste_cols_cons fs imgs cw_cell rh g y col cols idx ps idx' :
  paste_cols fs imgs cw_cell rh g y (col :: cols) idx = Ok (ps, idx') ->
  exists src rest,
    imgs !! idx = Some src
    /\ is_Some (image_size fs (path_str src))
    /\ paste_cols fs imgs cw_cell rh g y cols (S idx) = Ok (rest, idx')
    /\ ps = {| paste_img := path_str src; paste_w := cw_cell; paste_h := rh;
               paste_x := col * (cw_cell + g); paste_y := y |} :: rest.
Proof.
  cbn [paste_cols]. intros H.
  apply rbind_ok in H as (src & Hsrc & H).
  apply rbind_ok in H as (wh & Hwh & H).
  apply rbind_ok in H as ([rest idx1] & Hrest & H).
  cbn [fst snd] in H. injection H as <- <-.
  destruct (imgs !! idx) as [q|]; [|discriminate]. injection Hsrc as ->.
  exists src, rest. repeat split; try assumption.
  unfold image_open in Hwh. destruct (image_size fs (path_str src)); [eauto | discriminate].
Qed.

Lemma paste_rows_cons fs imgs cw ch g all_rows rcount rows y idx ps :
  paste_rows fs imgs cw ch g all_rows (rcount :: rows) y idx = Ok ps ->
  rcount <> 0
  /\ exists row idx1 rest,
       paste_cols fs imgs ((cw - g * (rcount - 1)) / rcount)
         ((ch - g * (Z.of_nat (length all_rows) - 1)) / Z.of_nat (length all_rows))
         g y (range rcount) idx = Ok (row, idx1)
       /\ paste_rows fs imgs cw ch g all_rows rows
            (y + ((ch - g * (Z.of_nat (length all_rows) - 1))
                  / Z.of_nat (length all_rows) + g)) idx1 = Ok rest
       /\ ps = row ++ rest.
Proof.
  cbn [paste_rows]. intros H.
  apply rbind_ok in H as (rh' & Hrh & H).
  apply rbind_ok in H as (cwc & Hcw & H).
  apply rbind_ok in H as ([row idx1] & Hrow & H).
  apply rbind_ok in H as (rest & Hrest & H). injection H as <-.
  apply floordiv_ok in Hrh as (_ & ->). apply floordiv_ok in Hcw as (Hrc & ->).
  split; [exact Hrc|]. exists row, idx1, rest. cbn [fst snd] in Hrest. auto.
Qed.

Lemma range_bounds n : Forall (fun c => 0 <= c < n) (range n).
Proof.
  unfold range. rewrite List.Forall_map, List.Forall_forall.
  intros k Hk. apply in_seq in Hk. lia.
Qed.

Lemma range_increasing n : StronglySorted Z.lt (range n).
Proof.
  unfold range. generalize 0%nat. induction (Z.to_nat n) as [|k IH]; intros s; simpl.
  - constructor.
  - constructor; [apply IH|].
    rewrite List.Forall_map, List.Forall_forall. intros j Hj. apply in_seq in Hj. lia.
Qed.

(** One row: every paste is a cell of the row, and the pastes go left to
    right. *)
Lemma paste_cols_row fs imgs cw_cell rh g y cols :
  0 <= cw_cell -> 0 <= g ->
  StronglySorted Z.lt cols ->
  forall idx ps idx',
    paste_cols fs imgs cw_cell rh g y cols idx = Ok (ps, idx') ->
    Forall (fun p => exists col, In col cols
              /\ paste_x p = col * (cw_cell + g) /\ paste_y p = y
              /\ paste_w p = cw_cell /\ paste_h p = rh) ps
    /\ ForallOrdPairs before_cell ps.
Proof.
  intros Hcw Hg Hsorted. induction Hsorted as [|col cols Hs IH Hlt];
    intros idx ps idx' H.
  - cbn in H. injection H as <- <-. split; constructor.
  - apply paste_cols_cons in H as (src & rest & _ & _ & Hrest & ->).
    destruct (IH _ _ _ Hrest) as [Hcells Hord]. split.
    + constructor.
      * exists col. cbn. auto.
      * eapply List.Forall_impl; [|exact Hcells].
        intros p (c & Hin & Hp). exists c. split; [right; exact Hin | exact Hp].
    + constructor; [|exact Hord].
      eapply List.Forall_impl; [|exact Hcells].
      intros q (c & Hin & Hx & Hy & _). right. cbn. split; [congruence|].
      rewrite List.Forall_forall in Hlt. specialize (Hlt c Hin). rewrite Hx. nia.
Qed.

Lemma ForallOrdPairs_app {A : Type} (R : A -> A -> Prop) (l1 l2 : list A) :
  ForallOrdPairs R l1 -> ForallOrdPairs R l2 ->
  (forall x y, In x l1 -> In y l2 -> R x y) ->
  ForallOrdPairs R (l1 ++ l2).
Proof.
  intros H1 H2 H12. induction H1 as [|x l1 Hx H1 IH]; simpl; [exact H2|].
  constructor.
  - apply Forall_app. split; [exact Hx|].
    rewrite List.Forall_forall. intros y Hy. apply H12; [left; reflexivity | exact Hy].
  - apply IH. intros a b Ha Hb. apply H12; [right; exact Ha | exact Hb].
Qed.

Lemma ForallOrdPairs_impl {A : Type} (R S : A -> A -> Prop) (l : list A) :
  (forall x y, R x y -> S x y) -> ForallOrdPairs R l -> ForallOrdPairs S l.
Proof.
  intros HRS. induction 1 as [|x l Hx H IH]; constructor; [|exact IH].
  eapply List.Forall_impl; [|exact Hx]. intros y. apply HRS.
Qed.

(** The rows from offset [y] on, [m] rows being left of which the last
    ends at or above the bottom of the canvas. *)
Lemma paste_rows_grid fs imgs cw ch g all_rows rows :
  let rh := (ch - g * (Z.of_nat (length all_rows) - 1)) / Z.of_nat (length all_rows) in
  0 <= g -> 0 <= rh ->
  Forall (fun rcount => g * (rcount - 1) <= cw) rows ->
  forall y idx ps,
    0 <= y ->
    y + Z.of_nat (length rows) * (rh + g) <= ch + g ->
    paste_rows fs imgs cw ch g all_rows rows y idx = Ok ps ->
    Forall (fun p => on_canvas cw ch p /\ y <= paste_y p /\ paste_h p = rh) ps
    /\ ForallOrdPairs before_cell ps.
Proof.
  intros rh Hg Hrh Hfit. induction Hfit as [|rcount rows Hrc Hfit IH];
    intros y idx ps Hy Hend H.
  - cbn in H. injection H as <-. split; constructor.
  - apply paste_rows_cons in H as (Hnz & row & idx1 & rest & Hrow & Hrest & ->).
    fold rh in Hrow, Hrest. cbn [length] in Hend.
    destruct (IH (y + (rh + g)) idx1 rest) as [Hrest_on Hrest_ord]; [lia | lia | exact Hrest|].
    destruct (Z.le_gt_cases rcount 0) as [Hneg|Hpos].
    { (* no column: the row pastes nothing *)
      assert (E : range rcount = []) by (unfold range; replace (Z.to_nat rcount) with O by lia; reflexivity).
      rewrite E in Hrow. cbn in Hrow. injection Hrow as <- <-. cbn [app]. split; [|exact Hrest_ord].
      eapply List.Forall_impl; [|exact Hrest_on]. intros p (Hon & Hyp & Hh). split; [exact Hon | split; [lia | exact Hh]]. }
    pose proof (floor_slack (cw - g * (rcount - 1)) rcount Hpos) as Hslack.
    set (cw_cell := (cw - g * (rcount - 1)) / rcount) in *.
    assert (Hcw0 : 0 <= cw_cell) by (apply Z.div_pos; lia).
    destruct (paste_cols_row fs imgs cw_cell rh g y (range rcount) Hcw0 Hg
                (range_increasing rcount) _ _ _ Hrow) as [Hcells Hord].
    assert (Hrow_on : Forall (fun p => on_canvas cw ch p /\ y <= paste_y p
                                       /\ paste_h p = rh
                                       /\ paste_y p = y) row).
    { eapply List.Forall_impl; [|exact Hcells].
      intros p (c & Hin & Hx & Hyp & Hw & Hh).
      pose proof (range_bounds rcount) as Hb. rewrite List.Forall_forall in Hb.
      specialize (Hb c Hin). unfold on_canvas. rewrite Hx, Hyp, Hw, Hh.
      repeat split; try lia; nia. }
    split.
    + apply Forall_app. split.
      * eapply List.Forall_impl; [|exact Hrow_on]. tauto.
      * eapply List.Forall_impl; [|exact Hrest_on].
        intros p (Hon & Hyp & Hh). split; [exact Hon | split; [lia | exact Hh]].
    + apply ForallOrdPairs_app; [exact Hord | exact Hrest_ord|].
      intros p q Hp Hq. rewrite List.Forall_forall in Hrow_on, Hrest_on.
      destruct (Hrow_on p Hp) as (_ & _ & Hh & Hyp).
      destruct (Hrest_on q Hq) as (_ & Hyq & _). left. lia.
Qed.

Lemma before_cell_apart p q : before_cell p q -> apart p q.
Proof. unfold before_cell, apart. tauto. Qed.

(** X5: with a gutter that is not negative and that leaves room on both axes,
    every cell of a composition lies on the canvas and no two cells share a
    pixel. *)
Theorem cells_on_canvas_and_apart fs imgs cw ch g rows pastes :
  0 <= g ->
  g * (Z.of_nat (length rows) - 1) <= ch ->
  Forall (fun rcount => g * (rcount - 1) <= cw) rows ->
  paste_rows fs imgs cw ch g rows rows 0 0 = Ok pastes ->
  Forall (on_canvas cw ch) pastes /\ ForallOrdPairs apart pastes.
Proof.
  intros Hg Hch Hcw H.
  destruct rows as [|rc rows'] eqn:E.
  { cbn in H. injection H as <-. split; constructor. }
  rewrite <- E in *.
  assert (Hn : 0 < Z.of_nat (length rows)) by (rewrite E; cbn [length]; lia).
  pose proof (floor_slack (ch - g * (Z.of_nat (length rows) - 1)) _ Hn) as Hslack.
  assert (Hrh : 0 <= (ch - g * (Z.of_nat (length rows) - 1)) / Z.of_nat (length rows))
    by (apply Z.div_pos; lia).
  destruct (paste_rows_grid fs imgs cw ch g rows rows Hg Hrh Hcw 0 O pastes)
    as [Hon Hord]; [lia | lia | exact H|].
  split.
  - eapply List.Forall_impl; [|exact Hon]. tauto.
  - eapply ForallOrdPairs_impl; [apply before_cell_apart | exact Hord].
Qed.

Lemma cells_on_canvas_and_apart_witness :
  Forall (on_canvas 800 800) four_pastes /\ ForallOrdPairs apart four_pastes.
Proof.
  apply (cells_on_canvas_and_apart all_readable
           (folder_images (in_input "b") four_jpgs) 800 800 10 [2; 2] four_pastes).
  - lia.
  - cbn. lia.
  - repeat (constructor; [lia|]). constructor.
  - vm_compute. reflexivity.
Defined.

End Layout.

(** ** Which images a composition uses *)

Section Consumption.

Local Open Scope res_scope.

Lemma paste_cols_images fs imgs cw_cell rh g y cols :
  forall idx ps idx',
    paste_cols fs imgs cw_cell rh g y cols idx = Ok (ps, idx') ->
    List.map paste_img ps = List.map path_str (take (length cols) (drop idx imgs))
    /\ idx' = (idx + length cols)%nat.
Proof.
  induction cols as [|col cols IH]; intros idx ps idx' H.
  - cbn in H. injection H as <- <-. cbn. split; [reflexivity | lia].
  - apply paste_cols_cons in H as (src & rest & Hsrc & _ & Hrest & ->).
    destruct (IH _ _ _ Hrest) as [Himgs ->].
    rewrite (drop_S _ _ _ Hsrc). cbn. rewrite Himgs. split; [reflexivity | lia].
Qed.

Lemma paste_rows_images fs imgs cw ch g all_rows rows :
  forall y idx ps,
    paste_rows fs imgs cw ch g all_rows rows y idx = Ok ps ->
    List.map paste_img ps
    = List.map path_str (take (images_needed rows) (drop idx imgs)).
Proof.
  induction rows as [|rcount rows IH]; intros y idx ps H.
  - cbn in H. injection H as <-. reflexivity.
  - apply paste_rows_cons in H as (_ & row & idx1 & rest & Hrow & Hrest & ->).
    apply paste_cols_images in Hrow as [Hrow ->]. apply IH in Hrest.
    rewrite length_range in *.
    change (images_needed (rcount :: rows))
      with (Z.to_nat rcount + images_needed rows)%nat.
    rewrite List.map_app, Hrow, Hrest, <- take_take_drop, List.map_app, drop_drop.
    reflexivity.
Qed.

(** X6: when the composition of a profile finishes, it has made the
    directory and saved one composite whose pastes are exactly the first
    [images_needed] images of the sorted list, each once and in order; the
    pattern needs no more images than the folder has, and the images after
    those are not used. *)
Theorem compose_uses_first_images fs args cfg folder imgs prof lay rows evs :
  layouts cfg !! orient_of (fst (prof_size prof)) (snd (prof_size prof)) = Some lay ->
  patterns lay !! pretty (length imgs) = Some rows ->
  compose_profile fs args cfg folder imgs prof = (evs, Ok tt) ->
  exists path bg pastes,
    evs = [Mkdir (path_join (args_out_dir args) (prof_tag prof));
           Save path (Composite (prof_size prof) bg pastes) (Some 95)]
    /\ List.map paste_img pastes
       = List.map path_str (take (images_needed rows) imgs)
    /\ (images_needed rows <= length imgs)%nat.
Proof.
  intros Hlay Hpat. unfold compose_profile.
  destruct (prof_size prof) as [cw ch]. cbn [fst snd] in Hlay.
  unfold lookup_key. rewrite Hlay. cbn [lift io_bind]. rewrite Hpat.
  cbn [lift io_bind emit].
  destruct (paste_rows fs imgs cw ch (default 0 (gutter lay)) rows rows 0 0)
    as [ps|e] eqn:Hps; cbn [io_bind app]; [|discriminate].
  intros [= <-]. eexists _, _, ps. split; [reflexivity|]. split.
  - apply paste_rows_images in Hps. rewrite drop_0 in Hps. exact Hps.
  - apply paste_rows_ok in Hps as ([H0|Hle] & _); lia.
Qed.

(** The sixth image does not open; the pattern for six uses five. *)
Lemma compose_uses_first_images_witness :
  exists path bg pastes,
    [Mkdir "output/wide";
     Save "output/wide/six_wide_900x700.jpg"
       (Composite (900, 700) "#ffffff"
          [ {| paste_img := "input/six/a.jpg"; paste_w := 445; paste_h := 345;
               paste_x := 0; paste_y := 0 |};
            {| paste_img := "input/six/b.jpg"; paste_w := 445; paste_h := 345;
               paste_x := 455; paste_y := 0 |};
            {| paste_img := "input/six/c.jpg"; paste_w := 293; paste_h := 345;
               paste_x := 0; paste_y := 355 |};
            {| paste_img := "input/six/d.jpg"; paste_w := 293; paste_h := 345;
               paste_x := 303; paste_y := 355 |};
            {| paste_img := "input/six/e.jpg"; paste_w := 293; paste_h := 345;
               paste_x := 606; paste_y := 355 |} ])
       (Some 95)]%string
    = [Mkdir (path_join (args_out_dir default_args) (prof_tag wide_profile));
       Save path (Composite (prof_size wide_profile) bg pastes) (Some 95)]
    /\ List.map paste_img pastes
       = List.map path_str
           (take (images_needed [2; 3]) (folder_images (in_input "six") six_jpgs))
    /\ (images_needed [2%Z; 3%Z]
        <= length (folder_images (in_input "six") six_jpgs))%nat.
Proof.
  apply (compose_uses_first_images (world_without "input/six/f.jpg") default_args
           loose_cfg (in_input "six") (folder_images (in_input "six") six_jpgs)
           wide_profile loose_layout [2; 3]).
  - vm_compute. reflexivity.
  - vm_compute. reflexivity.
  - vm_compute. reflexivity.
Defined.

End Consumption.

(** ** The order in which a folder is listed *)

Section ListingOrder.

Lemma string_compare_trans s1 :
  forall s2 s3,
    String.compare s1 s2 <> Gt -> String.compare s2 s3 <> Gt ->
    String.compare s1 s3 <> Gt.
Proof.
  induction s1 as [|c1 s1 IH]; intros [|c2 s2] [|c3 s3]; cbn [String.compare];
    try congruence.
  unfold Ascii.compare.
  destruct (N.compare_spec (N_of_ascii c1) (N_of_ascii c2)) as [E12|L12|G12];
    destruct (N.compare_spec (N_of_ascii c2) (N_of_ascii c3)) as [E23|L23|G23];
    destruct (N.compare_spec (N_of_ascii c1) (N_of_ascii c3)) as [E13|L13|G13];
    try congruence; try lia.
  apply IH.
Qed.

Lemma string_leb_trans s1 s2 s3 :
  String.leb s1 s2 = true -> String.leb s2 s3 = true -> String.leb s1 s3 = true.
Proof.
  unfold String.leb. intros H12 H23.
  pose proof (string_compare_trans s1 s2 s3) as H.
  destruct (String.compare s1 s2), (String.compare s2 s3), (String.compare s1 s3);
    try reflexivity; try discriminate; exfalso; apply H; congruence.
Qed.

Lemma sorted_strongly l : StronglySorted (fun a b => String.leb a b = true) (sorted l).
Proof.
  apply Sorted_StronglySorted; [|apply sorted_ordered].
  intros a b c. apply string_leb_trans.
Qed.

(** Two sorted lists with the same elements are the same list. *)
Lemma strongly_sorted_unique l1 :
  forall l2,
    StronglySorted (fun a b => String.leb a b = true) l1 ->
    StronglySorted (fun a b => String.leb a b = true) l2 ->
    Permutation l1 l2 -> l1 = l2.
Proof.
  induction l1 as [|x l1 IH]; intros l2 H1 H2 Hp.
  - apply Permutation_nil in Hp. congruence.
  - destruct l2 as [|y l2]; [symmetry in Hp; apply Permutation_nil in Hp; discriminate|].
    inversion H1 as [|? ? Hs1 Hx]; subst. inversion H2 as [|? ? Hs2 Hy]; subst.
    rewrite List.Forall_forall in Hx, Hy.
    assert (Exy : x = y).
    { assert (Hxin : In x (y :: l2)) by (eapply Permutation_in; [exact Hp | left; reflexivity]).
      assert (Hyin : In y (x :: l1))
        by (eapply Permutation_in; [symmetry; exact Hp | left; reflexivity]).
      destruct Hxin as [->|Hxin]; [reflexivity|].
      destruct Hyin as [->|Hyin]; [reflexivity|].
      apply String.leb_antisym; [apply Hx, Hyin | apply Hy, Hxin]. }
    subst y. f_equal. apply IH; [assumption.. |].
    eapply Permutation_cons_inv, Hp.
Qed.

Lemma glob_jpg_perm l1 l2 : Permutation l1 l2 -> Permutation (glob_jpg l1) (glob_jpg l2).
Proof.
  unfold glob_jpg. induction 1 as [|x l1 l2 _ IH|x y l|l1 l2 l3 _ IH1 _ IH2]; cbn [List.filter].
  - constructor.
  - destruct (ends_with ".jpg" x); [apply perm_skip|]; exact IH.
  - destruct (ends_with ".jpg" x), (ends_with ".jpg" y); try reflexivity. apply perm_swap.
  - etransitivity; eassumption.
Qed.

(** X7: the composition of a folder does not depend on the order in which
    the file system lists its children. *)
Theorem run_compose_listing_order fs args cfg folder children children' :
  Permutation children children' ->
  folder_images folder children = folder_images folder children'
  /\ run_compose fs args cfg folder children
     = run_compose fs args cfg folder children'.
Proof.
  intros Hp.
  assert (E : folder_images folder children = folder_images folder children').
  { unfold folder_images. f_equal.
    apply strongly_sorted_unique; [apply sorted_strongly.. |].
    rewrite !sorted_perm. apply glob_jpg_perm, Hp. }
  split; [exact E|]. unfold run_compose. rewrite E. reflexivity.
Qed.

Lemma run_compose_listing_order_witness :
  folder_images (in_input "b") four_jpgs
  = folder_images (in_input "b") (List.rev four_jpgs)
  /\ run_compose all_readable default_args grid_cfg (in_input "b") four_jpgs
     = run_compose all_readable default_args grid_cfg (in_input "b")
         (List.rev four_jpgs).
Proof.
  apply (run_compose_listing_order all_readable default_args grid_cfg
           (in_input "b") four_jpgs (List.rev four_jpgs)).
  apply Permutation_rev.
Defined.

(** X8: for a configuration with its [outputs], [profiles] and [layouts], a
    folder with no child matching [*.jpg] is passed over: nothing is written
    and nothing is raised, whatever profiles, layouts and patterns the
    configuration defines. *)
Theorem run_compose_skips_without_jpg fs args cfg folder children :
  Forall (fun nm => ends_with ".jpg" nm = false) children ->
  run_compose fs args cfg folder children = ([], Ok tt).
Proof.
  intros H.
  assert (E : glob_jpg children = []).
  { unfold glob_jpg. induction H as [|nm l Hnm _ IH]; cbn [List.filter];
      [reflexivity | rewrite Hnm; exact IH]. }
  unfold run_compose, folder_images. rewrite E. reflexivity.
Qed.

Lemma run_compose_skips_without_jpg_witness :
  run_compose all_readable default_args grid_cfg (in_input "c")
    ["x.png"; "y.JPG"; "z.jpeg"]%string = ([], Ok tt).
Proof.
  apply (run_compose_skips_without_jpg all_readable default_args grid_cfg
           (in_input "c") ["x.png"; "y.JPG"; "z.jpeg"]%string).
  repeat (constructor; [reflexivity|]). constructor.
Defined.

End ListingOrder.

(** ** Dispatch and the single-image batch *)

Section Dispatch.

Local Open Scope io_scope.

Lemma singles_of_filter dir r :
  singles_of dir (List.filter is_single r) = singles_of dir r
  /\ singles_of dir (List.filter is_folder r) = []
  /\ folders_of dir (List.filter is_single r) = []
  /\ folders_of dir (List.filter is_folder r) = folders_of dir r.
Proof.
  induction r as [|[nm|nm ch|nm] r (IH1 & IH2 & IH3 & IH4)];
    cbn [List.filter is_single is_folder]; [repeat split; reflexivity|..].
  - destruct (is_image_name nm) eqn:E; cbn [singles_of folders_of List.flat_map] in *.
    + rewrite E. cbn [app]. repeat split; try assumption. f_equal. exact IH1.
    + rewrite E. cbn [app]. repeat split; assumption.
  - cbn [singles_of folders_of List.flat_map app] in *.
    repeat split; try assumption. f_equal. exact IH4.
  - cbn [singles_of folders_of List.flat_map app] in *. repeat split; assumption.
Qed.

(** X12: [process] runs the batch on the image files among the children of
    the input directory, in their order, and only then composes the folders,
    in their order: when the batch raises, the run is the batch and no
    folder is composed; when it finishes, the events of the folders follow
    those of the batch.  Other entries, and the way files and folders are
    interleaved, change nothing. *)
Theorem process_files_then_folders fs args cfg root :
  let dir := args_input_dir args in
  let batch := run_batch fs args cfg (singles_of dir (List.filter is_single root)) in
  let folders := compose_all fs args cfg (folders_of dir (List.filter is_folder root)) in
  process fs args cfg root = (batch ;;; folders)
  /\ (raised batch = true -> process fs args cfg root = batch)
  /\ (raised batch = false ->
      process fs args cfg root = (fst batch ++ fst folders, snd folders))
  /\ process fs args cfg root
     = process fs args cfg (List.filter is_single root ++ List.filter is_folder root).
Proof.
  intros dir batch folders.
  destruct (singles_of_filter dir root) as (Hs1 & Hs2 & Hf1 & Hf2).
  assert (Hp : process fs args cfg root = (batch ;;; folders)).
  { rewrite process_batch_then_compose. unfold batch, folders. fold dir.
    rewrite Hs1, Hf2. reflexivity. }
  split; [exact Hp|]. split; [|split].
  - intros Hr. rewrite Hp. apply io_bind_raised_unit, Hr.
  - intros Hr. rewrite Hp. destruct batch as [evs [[]|e]]; [|discriminate].
    cbn [io_bind fst]. destruct folders. reflexivity.
  - unfold process. fold dir. rewrite singles_of_app, folders_of_app.
    rewrite Hs1, Hs2, Hf1, Hf2. rewrite app_nil_r. reflexivity.
Qed.

Lemma for_each_ext {A : Type} (f g : A -> io unit) (l : list A) :
  (forall x, f x = g x) -> for_each l f = for_each l g.
Proof.
  intros H. induction l as [|x l IH]; cbn [for_each]; [reflexivity|].
  rewrite H, IH. reflexivity.
Qed.

Lemma area_rejected_max_zero args area :
  area_rejected (with_max_area args (Some 0)) area
  = area_rejected (with_max_area args None) area.
Proof. unfold area_rejected. cbn. reflexivity. Qed.

Lemma batch_profile_max_area args m m' cfg src w h bbox drawn prof :
  batch_profile (with_max_area args m) cfg src w h bbox drawn prof
  = batch_profile (with_max_area args m') cfg src w h bbox drawn prof.
Proof. reflexivity. Qed.

(** X13: [--max-area 0] is no limit: the run is that of a missing [--max-area]. *)
Theorem max_area_zero_is_no_limit fs args cfg files :
  run_batch fs (with_max_area args (Some 0)) cfg files
  = run_batch fs (with_max_area args None) cfg files.
Proof.
  unfold run_batch. apply for_each_ext. intros src. unfold batch_file.
  destruct (image_open fs (path_str src)) as [[w h]|e]; [|reflexivity].
  cbn [lift io_bind].
  change (get_bbox fs (with_max_area args (Some 0)) src)
    with (get_bbox fs (with_max_area args None) src).
  change (args_pad (with_max_area args (Some 0)))
    with (args_pad (with_max_area args None)).
  destruct (match get_bbox fs (with_max_area args None) src with
            | Some bx => bx
            | None => center_square w h (args_pad (with_max_area args None))
            end) as [[[l0 t0] r0] b0].
  rewrite area_rejected_max_zero.
  change (args_debug (with_max_area args (Some 0)))
    with (args_debug (with_max_area args None)).
  change (args_out_dir (with_max_area args (Some 0)))
    with (args_out_dir (with_max_area args None)).
  rewrite (for_each_ext _ _ _ (batch_profile_max_area args (Some 0) None cfg src w h _ _)).
  reflexivity.
Qed.

Lemma batch_profile_inside fs args cfg src w h bbox drawn prof :
  image_size fs (path_str src) = Some (w, h) ->
  Forall (crop_inside fs) (fst (batch_profile args cfg src w h bbox drawn prof)).
Proof.
  intros Himg. unfold batch_profile. destruct (prof_size prof) as [tw th].
  destruct (ratio_of tw th) as [ratio|e]; cbn [lift io_bind fst]; [|constructor].
  destruct bbox as [[[l t] r] b].
  destruct (expand_aspect l t r b ratio w h _) as [box|e] eqn:Hbox;
    cbn [lift io_bind fst]; [|constructor].
  cbn. repeat constructor. cbn. rewrite Himg.
  eapply expand_aspect_within, Hbox.
Qed.

(** X14: every crop that the batch saves was cut inside the image it comes
    from: its box lies in [0,w] x [0,h] of the source, whatever the detector
    returned and whatever the pads are. *)
Theorem crops_inside_image fs args cfg files :
  Forall (crop_inside fs) (fst (run_batch fs args cfg files)).
Proof.
  unfold run_batch. apply for_each_Forall. intros src. unfold batch_file.
  destruct (image_open fs (path_str src)) as [[w h]|e] eqn:Hopen; [|constructor].
  assert (Himg : image_size fs (path_str src) = Some (w, h)).
  { unfold image_open in Hopen. destruct (image_size fs (path_str src)); congruence. }
  cbn [lift io_bind].
  destruct (match get_bbox fs args src with
            | Some bx => bx
            | None => center_square w h (args_pad args)
            end) as [[[l0 t0] r0] b0].
  match goal with |- Forall _ (fst (let '(evs', r) := ?m in _)) =>
    change (Forall (crop_inside fs) (fst (io_bind ([], Ok tt) (fun _ => m)))) end.
  apply fst_io_bind_Forall; [constructor | intros _].
  apply fst_io_bind_Forall.
  - destruct (args_debug args); [apply emit_Forall; exact I | apply io_ret_Forall].
  - intros _. apply for_each_Forall. intros prof. apply batch_profile_inside, Himg.
Qed.

End Dispatch.

(** ** What a finished batch has written *)

Section Counting.

Local Open Scope io_scope.

Lemma io_bind_ok {A B : Type} (m : io A) (k : A -> io B) evs b :
  io_bind m k = (evs, Ok b) ->
  exists e1 a e2, m = (e1, Ok a) /\ k a = (e2, Ok b) /\ evs = e1 ++ e2.
Proof.
  destruct m as [e1 [a|e]]; cbn [io_bind]; [|discriminate].
  destruct (k a) as [e2 r] eqn:Hk. intros [= <- ->]. eauto 6.
Qed.

(** A loop that finishes has written, for each element, what its body
    writes. *)
Lemma for_each_count {A : Type} (P : event -> bool) (c : nat)
    (body : A -> io unit) (l : list A) :
  (forall x evs, body x = (evs, Ok tt) -> length (List.filter P evs) = c) ->
  forall evs,
    for_each l body = (evs, Ok tt) ->
    length (List.filter P evs) = (length l * c)%nat.
Proof.
  intros Hbody. induction l as [|x l IH]; intros evs H; cbn [for_each] in H.
  - injection H as <-. reflexivity.
  - apply io_bind_ok in H as (e1 & [] & e2 & Hx & Hl & ->).
    rewrite List.filter_app, length_app, (Hbody _ _ Hx), (IH _ Hl). cbn [length]. lia.
Qed.

Lemma batch_profile_count args cfg src w h bbox drawn prof evs :
  batch_profile args cfg src w h bbox drawn prof = (evs, Ok tt) ->
  length (List.filter is_crop evs) = 1%nat
  /\ length (List.filter is_overlay evs) = 0%nat.
Proof.
  intros H. pose proof (batch_profile_events args cfg src w h bbox drawn prof) as E.
  rewrite H in E. destruct E as (dir & path & box & ->). split; reflexivity.
Qed.

Lemma batch_file_count fs args cfg src evs :
  batch_file fs args cfg src = (evs, Ok tt) ->
  length (List.filter is_crop evs) = length (profiles (outputs cfg))
  /\ length (List.filter is_overlay evs) = (if args_debug args then 1 else 0)%nat.
Proof.
  unfold batch_file. intros H.
  apply io_bind_ok in H as (e1 & [w h] & e2 & Hopen & H & ->).
  unfold lift in Hopen. injection Hopen as <- _.
  destruct (match get_bbox fs args src with
            | Some bx => bx
            | None => center_square w h (args_pad args)
            end) as [[[l0 t0] r0] b0].
  apply io_bind_ok in H as (e3 & [] & e4 & Hdbg & Hprofs & ->).
  cbn [app]. rewrite !List.filter_app, !length_app.
  rewrite (for_each_count is_crop 1 _ _
             (fun x evs Hx => proj1 (batch_profile_count _ _ _ _ _ _ _ _ _ Hx)) _ Hprofs).
  rewrite (for_each_count is_overlay 0 _ _
             (fun x evs Hx => proj2 (batch_profile_count _ _ _ _ _ _ _ _ _ Hx)) _ Hprofs).
  destruct (args_debug args); injection Hdbg as <-; cbn; lia.
Qed.

(** X15: a batch that finishes has saved one crop for every image and every
    profile, and, in debug mode, one overlay for every image: once per
    image, not once per profile. *)
Theorem finished_batch_counts fs args cfg files evs :
  run_batch fs args cfg files = (evs, Ok tt) ->
  length (List.filter is_crop evs)
  = (length files * length (profiles (outputs cfg)))%nat
  /\ length (List.filter is_overlay evs)
     = (length files * (if args_debug args then 1 else 0))%nat.
Proof.
  intros H. unfold run_batch in H. split.
  - apply (for_each_count is_crop _ (batch_file fs args cfg) files); [|exact H].
    intros src e He. apply (batch_file_count _ _ _ _ _ He).
  - apply (for_each_count is_overlay _ (batch_file fs args cfg) files); [|exact H].
    intros src e He. apply (batch_file_count _ _ _ _ _ He).
Qed.

Lemma finished_batch_counts_witness :
  exists evs,
    run_batch all_readable default_args loose_cfg [in_input "p.jpg"; in_input "q.png"]
    = (evs, Ok tt)
    /\ length (List.filter is_crop evs)
       = (length [in_input "p.jpg"; in_input "q.png"]
          * length (profiles (outputs loose_cfg)))%nat
    /\ length (List.filter is_overlay evs)
       = (length [in_input "p.jpg"; in_input "q.png"]
          * (if args_debug default_args then 1 else 0))%nat.
Proof.
  eexists. split; [vm_compute; reflexivity|].
  apply (finished_batch_counts all_readable default_args loose_cfg
           [in_input "p.jpg"; in_input "q.png"]).
  vm_compute. reflexivity.
Defined.

(** X16: without [--debug], when no detection is available and the pad is
    half the shorter side of the image, the fallback square has no extent and
    the first profile raises [ZeroDivisionError] (from [cr = bw/bh], or from
    [tw/th] when [th = 0]) before anything is written; [tw/th] is assumed not
    to overflow a float. *)
Theorem zero_side_square_raises fs args cfg src w h prof profs :
  args_debug args = false ->
  image_size fs (path_str src) = Some (w, h) ->
  get_bbox fs args src = None ->
  Z.min w h = 2 * args_pad args ->
  profiles (outputs cfg) = prof :: profs ->
  ratio_of (fst (prof_size prof)) (snd (prof_size prof)) <> Raise OverflowError ->
  batch_file fs args cfg src = ([], Raise ZeroDivisionError).
Proof.
  intros Hdebug Himg Hbox Hmin Hprofs Hratio. unfold batch_file, image_open.
  rewrite Himg, Hbox, Hprofs, Hdebug. cbn [lift io_bind].
  unfold center_square. rewrite Hmin.
  replace (2 * args_pad args - 2 * args_pad args) with 0 by lia.
  rewrite !Z.sub_0_r, !Z.add_0_r.
  assert (Hp : forall drawn,
             batch_profile args cfg src w h (w / 2, h / 2, w / 2, h / 2) drawn prof
             = ([], Raise ZeroDivisionError)).
  { intros drawn. unfold batch_profile.
    destruct (prof_size prof) as [tw th]. cbn [fst snd] in Hratio.
    unfold ratio_of, PyFloat.int_truediv in *.
    destruct (th =? 0); [reflexivity|].
    assert (Hgrow : forall ratio pad, expand_aspect (w / 2) (h / 2) (w / 2) (h / 2) ratio w h pad
                                      = Raise ZeroDivisionError).
    { intros ratio pad. unfold expand_aspect, grow, PyFloat.int_truediv.
      rewrite Z.sub_diag. reflexivity. }
    destruct (tw =? 0); [cbn [lift io_bind]; rewrite Hgrow; reflexivity|].
    destruct (SFdiv _ _ _ _) as [s|s| |s m e]; cbn [PyFloat.finite_or_overflow lift io_bind] in *;
      try (rewrite Hgrow; reflexivity).
    congruence. }
  cbn [for_each].
  destruct (area_rejected args _); cbv iota; rewrite Hp; reflexivity.
Qed.

Lemma zero_side_square_raises_witness :
  batch_file all_readable half_pad_args grid_cfg (in_input "p.jpg")
  = ([], Raise ZeroDivisionError).
Proof.
  apply (zero_side_square_raises all_readable half_pad_args grid_cfg
           (in_input "p.jpg") 1000 800 square_profile []).
  - reflexivity.
  - reflexivity.
  - reflexivity.
  - reflexivity.
  - reflexivity.
  - vm_compute. discriminate.
Defined.

End Counting.

(** ** More on the composition *)

Section ComposeMore.

Local Open Scope res_scope.

(** Rows that were all pasted have no row of no column. *)
Lemma paste_rows_nonzero fs imgs cw ch g all_rows rows :
  forall y idx ps,
    paste_rows fs imgs cw ch g all_rows rows y idx = Ok ps ->
    Forall (fun rcount => rcount <> 0) rows.
Proof.
  induction rows as [|rcount rows IH]; intros y idx ps H; [constructor|].
  apply paste_rows_cons in H as (Hrc & row & idx1 & rest & _ & Hrest & _).
  constructor; [exact Hrc | eapply IH, Hrest].
Qed.

(** X10: a pattern with a row of no column is never composed: whatever the
    images are, the directory is made, an exception is raised (the
    [ZeroDivisionError] of the cell width at that row, unless something
    raised before it) and no composite is saved. *)
Theorem compose_zero_row_raises fs args cfg folder imgs prof lay rows :
  layouts cfg !! orient_of (fst (prof_size prof)) (snd (prof_size prof)) = Some lay ->
  patterns lay !! pretty (length imgs) = Some rows ->
  In 0 rows ->
  exists e,
    compose_profile fs args cfg folder imgs prof
    = ([Mkdir (path_join (args_out_dir args) (prof_tag prof))], Raise e).
Proof.
  intros Hlay Hpat Hin. unfold compose_profile.
  destruct (prof_size prof) as [cw ch]. cbn [fst snd] in Hlay.
  unfold lookup_key. rewrite Hlay. cbn [lift io_bind]. rewrite Hpat.
  cbn [lift io_bind emit].
  destruct (paste_rows fs imgs cw ch (default 0 (gutter lay)) rows rows 0 0)
    as [ps|e] eqn:Hps; cbn [io_bind app].
  - apply paste_rows_nonzero in Hps. rewrite List.Forall_forall in Hps.
    exfalso. exact (Hps 0 Hin eq_refl).
  - exists e. reflexivity.
Qed.

Lemma compose_zero_row_raises_witness :
  exists e,
    compose_profile all_readable default_args broken_cfg (in_input "b")
      (folder_images (in_input "b") four_jpgs) square_profile
    = ([Mkdir (path_join (args_out_dir default_args) (prof_tag square_profile))],
       Raise e).
Proof.
  apply (compose_zero_row_raises all_readable default_args broken_cfg (in_input "b")
           (folder_images (in_input "b") four_jpgs) square_profile
           broken_layout [2; 0; 2]).
  - vm_compute. reflexivity.
  - vm_compute. reflexivity.
  - right. left. reflexivity.
Defined.

End ComposeMore.

Section ComposeCount.

Local Open Scope io_scope.

Lemma compose_profile_count fs args cfg folder imgs prof evs :
  compose_profile fs args cfg folder imgs prof = (evs, Ok tt) ->
  length (List.filter is_save evs) = 1%nat.
Proof.
  unfold compose_profile. destruct (prof_size prof) as [cw ch]. intros H.
  apply io_bind_ok in H as (e1 & lay & e2 & Hlay & H & ->).
  apply io_bind_ok in H as (e3 & rows & e4 & Hrows & H & ->).
  apply io_bind_ok in H as (e5 & [] & e6 & Hmk & H & ->).
  apply io_bind_ok in H as (e7 & ps & e8 & Hps & H & ->).
  unfold lift, emit in *.
  injection Hlay as <- _. injection Hrows as <- _. injection Hmk as <-.
  injection Hps as <- _. injection H as <-. reflexivity.
Qed.

(** X11: a folder with images whose composition finishes has one composite
    saved for every profile, whatever the number of its images. *)
Theorem finished_compose_counts fs args cfg folder children evs :
  folder_images folder children <> [] ->
  run_compose fs args cfg folder children = (evs, Ok tt) ->
  length (List.filter is_save evs) = length (profiles (outputs cfg)).
Proof.
  intros Hne H. unfold run_compose in H.
  destruct (folder_images folder children) as [|p imgs]; [congruence|].
  cbn [length Nat.eqb] in H.
  rewrite (for_each_count is_save 1 _ _
             (fun x e Hx => compose_profile_count _ _ _ _ _ _ _ Hx) _ H). lia.
Qed.

Lemma finished_compose_counts_witness :
  exists evs,
    run_compose all_readable default_args grid_cfg (in_input "b") four_jpgs
    = (evs, Ok tt)
    /\ length (List.filter is_save evs) = length (profiles (outputs grid_cfg)).
Proof.
  eexists. split; [vm_compute; reflexivity|].
  apply (finished_compose_counts all_readable default_args grid_cfg
           (in_input "b") four_jpgs).
  - vm_compute. discriminate.
  - vm_compute. reflexivity.
Defined.

End ComposeCount.
